(** * Session store, archive upload client and resource client

    A shallow embedding of the React authentication context
    ([AuthProvider]: restore effect, [login], [signup], [logout],
    [updateCurrentUser]), of the archive upload client ([getMediaType],
    [uploadFile]) and of the resource list client ([getResources]),
    together with the parts of the JavaScript platform they call:
    completions (normal / throw), JSON-representable values, own-property
    access on ordinary objects, [String(...)], [JSON.stringify],
    [JSON.parse] and [localStorage].

    Part I holds the definitions, Part II the theorems. *)

From Stdlib Require Import ZArith NArith String Ascii List Bool Lia.
From stdpp Require Import base option list strings gmap.
Import ListNotations.

Local Open Scope stdpp_scope.
Set Warnings "-register-all".

(* ===================================================================== *)
(** * Part I: definitions *)
(* ===================================================================== *)

(** ** JavaScript values and completions *)

Module JS.

(** An [Error] object, as far as the programs look at it: [err.name] and
    [err.message]. *)
Record Error : Type := mkError { name : string; message : string }.

(** [new Error(msg)] *)
Definition new_Error (msg : string) : Error := mkError "Error" msg.
(** Errors raised by the engine itself.  Their message texts differ
    from engine to engine and are left empty here. *)
Definition TypeError : Error := mkError "TypeError" EmptyString.
Definition SyntaxError : Error := mkError "SyntaxError" EmptyString.

(** How the evaluation of an expression, or an awaited promise, ends. *)
Inductive Completion (A : Type) : Type :=
| Normal (a : A)
| Throw (e : Error).
Arguments Normal {A} a.
Arguments Throw {A} e.

Definition is_Throw {A} (c : Completion A) : Prop :=
  match c with
  | Normal _ => False
  | Throw _ => True
  end.

#[export] Instance Completion_ret : MRet Completion := fun A a => Normal a.
#[export] Instance Completion_bind : MBind Completion := fun A B k c =>
  match c with
  | Normal a => k a
  | Throw e => Throw e
  end.

(** [xs.map(f)] when [f] may throw: the first exception ends the loop. *)
Fixpoint map_throwing {A B} (f : A -> Completion B) (xs : list A)
  : Completion (list B) :=
  match xs with
  | [] => Normal []
  | x :: xs' => y ← f x; ys ← map_throwing f xs'; Normal (y :: ys)
  end.

(** JSON-representable values.  Numbers are the integers (a double that
    holds an integer); strings are sequences of 8-bit code units; an
    object is the list of its own properties in property order. *)
Inductive json : Type :=
| JNull
| JBool (b : bool)
| JNum (z : Z)
| JStr (s : string)
| JArr (elems : list json)
| JObj (props : list (string * json)).

(** *** Decimal digits *)

Definition is_digit (c : ascii) : bool :=
  ((48 <=? N_of_ascii c) && (N_of_ascii c <=? 57))%N.
Definition digit_val (c : ascii) : N := (N_of_ascii c - 48)%N.
Definition digit_char (d : N) : ascii := ascii_of_N (48 + d).

Fixpoint digits_aux (fuel : nat) (n : N) (acc : string) : string :=
  match fuel with
  | O => acc
  | S fuel' =>
      let acc' := String (digit_char (n mod 10)) acc in
      if (n <? 10)%N then acc' else digits_aux fuel' (n / 10) acc'
  end.

(** The decimal numeral of a natural number, without leading zeros. *)
Definition string_of_N (n : N) : string :=
  digits_aux (S (N.to_nat (N.log2 n))) n EmptyString.

(** [Number.prototype.toString] on an integer; exact for the safe
    integers (up to 2^53 - 1 in absolute value), which is what
    [JSON.json_wf] asks of every number. *)
Definition Number_toString (z : Z) : string :=
  if (z <? 0)%Z then String "-" (string_of_N (Z.abs_N z))
  else string_of_N (Z.abs_N z).

(** Reads a maximal run of decimal digits, most significant first. *)
Fixpoint scan_digits (s : string) (acc : N) : N * string :=
  match s with
  | String c s' =>
      if is_digit c then scan_digits s' (10 * acc + digit_val c)%N
      else (acc, s)
  | EmptyString => (acc, s)
  end.

(** *** Ordinary objects: own properties in property order *)

(** A property key is an array index when it is the canonical numeral of
    an integer below 2^32 - 1. *)
Definition index_of_key (k : string) : option N :=
  match scan_digits k 0 with
  | (n, EmptyString) =>
      if String.eqb (string_of_N n) k && (n <? 4294967295)%N
      then Some n else None
  | _ => None
  end.

Section Props.
Context {A : Type}.

Fixpoint obj_get (k : string) (l : list (string * A)) : option A :=
  match l with
  | [] => None
  | (k', v) :: l' => if String.eqb k k' then Some v else obj_get k l'
  end.

Definition obj_has (k : string) (l : list (string * A)) : bool :=
  match obj_get k l with Some _ => true | None => false end.

Fixpoint obj_replace (k : string) (v : A) (l : list (string * A))
  : list (string * A) :=
  match l with
  | [] => []
  | (k', v') :: l' =>
      if String.eqb k k' then (k', v) :: l'
      else (k', v') :: obj_replace k v l'
  end.

(** A new array-index key goes before the first key that is not a
    smaller array index. *)
Fixpoint obj_insert_index (i : N) (k : string) (v : A)
    (l : list (string * A)) : list (string * A) :=
  match l with
  | [] => [(k, v)]
  | (k', v') :: l' =>
      match index_of_key k' with
      | Some j =>
          if (j <? i)%N then (k', v') :: obj_insert_index i k v l'
          else (k, v) :: l
      | None => (k, v) :: l
      end
  end.

(** [CreateDataProperty]: an existing property keeps its place and
    gets the new value; a new one is placed by the property order
    (array indices ascending, then the other keys in creation order). *)
Definition obj_set (k : string) (v : A) (l : list (string * A))
  : list (string * A) :=
  if obj_has k l then obj_replace k v l
  else match index_of_key k with
       | Some i => obj_insert_index i k v l
       | None => l ++ [(k, v)]
       end.

(** The object built by defining the members one after the other. *)
Definition obj_of_members (l : list (string * A)) : list (string * A) :=
  fold_left (fun acc kv => obj_set (fst kv) (snd kv) acc) l [].
End Props.

(** Truthiness ([ToBoolean]); [None] is [undefined]. *)
Definition truthy (v : option json) : bool :=
  match v with
  | None => false
  | Some JNull => false
  | Some (JBool b) => b
  | Some (JNum z) => negb (z =? 0)%Z
  | Some (JStr s) => negb (String.eqb s EmptyString)
  | Some (JArr _) => true
  | Some (JObj _) => true
  end.

Definition string_truthy (s : option string) : bool :=
  match s with
  | None => false
  | Some s => negb (String.eqb s EmptyString)
  end.

(** *** Property access and conversion to string *)

(** The own enumerable properties of a value, as a spread [{...v}]
    copies them: the properties of an object, the elements of an array
    and the characters of a string under their indices, nothing for the
    other values. *)
Fixpoint indexed {A} (i : N) (l : list A) : list (string * A) :=
  match l with
  | [] => []
  | x :: l' => (string_of_N i, x) :: indexed (N.succ i) l'
  end.

Fixpoint chars (s : string) : list json :=
  match s with
  | EmptyString => []
  | String c s' => JStr (String c EmptyString) :: chars s'
  end.

Definition own_props (v : json) : list (string * json) :=
  match v with
  | JObj l => l
  | JArr l => indexed 0 l
  | JStr s => indexed 0 (chars s)
  | JNull | JBool _ | JNum _ => []
  end.

(** [v.k] for a key [k] that no built-in prototype defines (the clients
    read [data] and [id]): the own property, [length] of an array or a
    string, [undefined] ([None]) otherwise; reading a property of [null]
    throws. *)
Definition Get (v : json) (k : string) : Completion (option json) :=
  match v with
  | JNull => Throw TypeError
  | _ =>
      match obj_get k (own_props v) with
      | Some x => Normal (Some x)
      | None =>
          if String.eqb k "length" then
            match v with
            | JArr l => Normal (Some (JNum (Z.of_nat (length l))))
            | JStr s => Normal (Some (JNum (Z.of_nat (String.length s))))
            | _ => Normal None
            end
          else Normal None
      end
  end.

(** [ToString]: a primitive by its kind; an array as its elements
    joined by commas, [null] elements as the empty string; an object
    from JSON as [[object Object]], unless an own [toString] property
    (never callable) hides the inherited one, which throws. *)
Fixpoint ToString (v : json) : Completion string :=
  match v with
  | JNull => Normal "null"
  | JBool true => Normal "true"
  | JBool false => Normal "false"
  | JNum z => Normal (Number_toString z)
  | JStr s => Normal s
  | JArr l =>
      (fix join (l : list json) : Completion string :=
         match l with
         | [] => Normal EmptyString
         | x :: l' =>
             s ← match x with JNull => Normal EmptyString | _ => ToString x end;
             match l' with
             | [] => Normal s
             | _ :: _ => t ← join l'; Normal (s +:+ "," +:+ t)
             end
         end) l
  | JObj l =>
      if obj_has "toString" l then Throw TypeError
      else Normal "[object Object]"
  end.

(** [String(v)]; [None] is [undefined]. *)
Definition String_ (v : option json) : Completion string :=
  match v with
  | None => Normal "undefined"
  | Some v => ToString v
  end.

End JS.

(** ** The JSON codec of the platform: [JSON.stringify], [JSON.parse] *)

Module JSON.
Import JS.

Definition dquote : ascii := "034"%char.
Definition backslash : ascii := "092"%char.

Definition hex_char (d : N) : ascii :=
  if (d <? 10)%N then ascii_of_N (48 + d) else ascii_of_N (87 + d).

(** [QuoteJSONString] on one code unit: the quote and the backslash are
    escaped, control characters get their short escape or [\u00xx] with
    lowercase hex digits, every other code unit stands for itself. *)
Definition escape_char (c : ascii) : string :=
  let n := N_of_ascii c in
  if (n =? 34)%N then String backslash (String dquote EmptyString)
  else if (n =? 92)%N then String backslash (String backslash EmptyString)
  else if (n =? 8)%N then String backslash "b"
  else if (n =? 9)%N then String backslash "t"
  else if (n =? 10)%N then String backslash "n"
  else if (n =? 12)%N then String backslash "f"
  else if (n =? 13)%N then String backslash "r"
  else if (n <? 32)%N then
    String backslash
      (String "u" (String "0" (String "0"
         (String (hex_char (n / 16)) (String (hex_char (n mod 16)) EmptyString)))))
  else String c EmptyString.

Fixpoint escape (s : string) : string :=
  match s with
  | EmptyString => EmptyString
  | String c s' => escape_char c +:+ escape s'
  end.

Definition quote (s : string) : string :=
  String dquote (escape s +:+ String dquote EmptyString).

(** [JSON.stringify(v)] with no replacer and no indentation. *)
Fixpoint stringify (v : json) : string :=
  match v with
  | JNull => "null"
  | JBool true => "true"
  | JBool false => "false"
  | JNum z => Number_toString z
  | JStr s => quote s
  | JArr [] => "[]"
  | JArr (x :: l) =>
      "[" +:+ stringify x +:+
      (fix rest (l : list json) : string :=
         match l with
         | [] => "]"
         | y :: l' => "," +:+ stringify y +:+ rest l'
         end) l
  | JObj [] => "{}"
  | JObj ((k, x) :: l) =>
      "{" +:+ quote k +:+ ":" +:+ stringify x +:+
      (fix rest (l : list (string * json)) : string :=
         match l with
         | [] => "}"
         | (k', y) :: l' => "," +:+ quote k' +:+ ":" +:+ stringify y +:+ rest l'
         end) l
  end.

(** The text that follows the first element of an array, and the first
    member of an object, in the output of [stringify]. *)
Fixpoint elems_tail (l : list json) : string :=
  match l with
  | [] => "]"
  | y :: l' => "," +:+ stringify y +:+ elems_tail l'
  end.

Fixpoint members_tail (l : list (string * json)) : string :=
  match l with
  | [] => "}"
  | (k, y) :: l' => "," +:+ quote k +:+ ":" +:+ stringify y +:+ members_tail l'
  end.

(** The values this model of the codec is exact on: numbers are safe
    integers, and the property list of every object is in property
    order, each key once (it is the object its own members build). *)
Fixpoint json_wf (v : json) : Prop :=
  match v with
  | JNull | JBool _ | JStr _ => True
  | JNum z => (Z.abs z <= 9007199254740991)%Z
  | JArr l =>
      (fix all (l : list json) : Prop :=
         match l with
         | [] => True
         | x :: l' => json_wf x /\ all l'
         end) l
  | JObj l =>
      obj_of_members l = l /\
      (fix all (l : list (string * json)) : Prop :=
         match l with
         | [] => True
         | (_, x) :: l' => json_wf x /\ all l'
         end) l
  end.

(** *** [JSON.parse] *)

Definition is_ws (c : ascii) : bool :=
  let n := N_of_ascii c in
  ((n =? 32) || (n =? 9) || (n =? 10) || (n =? 13))%N.

Fixpoint skip_ws (s : string) : string :=
  match s with
  | String c s' => if is_ws c then skip_ws s' else s
  | EmptyString => s
  end.

(** [drop_prefix p s] is what follows [p] in [s]. *)
Fixpoint drop_prefix (p s : string) : option string :=
  match p, s with
  | EmptyString, _ => Some s
  | String a p', String b s' => if Ascii.eqb a b then drop_prefix p' s' else None
  | String _ _, EmptyString => None
  end.

Definition hex_val (c : ascii) : option N :=
  let n := N_of_ascii c in
  if ((48 <=? n) && (n <=? 57))%N then Some (n - 48)%N
  else if ((97 <=? n) && (n <=? 102))%N then Some (n - 87)%N
  else if ((65 <=? n) && (n <=? 70))%N then Some (n - 55)%N
  else None.

(** The code unit named by the four hex digits of a [\u] escape; code
    units above [00ff] are outside the modelled strings. *)
Definition unicode_escape (h1 h2 h3 h4 : ascii) : option ascii :=
  match hex_val h1, hex_val h2, hex_val h3, hex_val h4 with
  | Some a, Some b, Some c, Some d =>
      let n := (((a * 16 + b) * 16 + c) * 16 + d)%N in
      if (n <? 256)%N then Some (ascii_of_N n) else None
  | _, _, _, _ => None
  end.

Definition simple_escape (e : ascii) : option ascii :=
  let n := N_of_ascii e in
  if (n =? 34)%N then Some dquote
  else if (n =? 92)%N then Some backslash
  else if (n =? 47)%N then Some "/"%char
  else if (n =? 98)%N then Some "008"%char
  else if (n =? 102)%N then Some "012"%char
  else if (n =? 110)%N then Some "010"%char
  else if (n =? 114)%N then Some "013"%char
  else if (n =? 116)%N then Some "009"%char
  else None.

Definition cons_char (c : ascii) (r : option (string * string))
  : option (string * string) :=
  match r with
  | Some (str, rest) => Some (String c str, rest)
  | None => None
  end.

(** The characters of a string literal after its opening quote, up to
    and including the closing quote. *)
Fixpoint parse_string_body (s : string) : option (string * string) :=
  match s with
  | EmptyString => None
  | String c s' =>
      if (N_of_ascii c =? 34)%N then Some (EmptyString, s')
      else if (N_of_ascii c =? 92)%N then
        match s' with
        | EmptyString => None
        | String e s'' =>
            match simple_escape e with
            | Some ch => cons_char ch (parse_string_body s'')
            | None =>
                if (N_of_ascii e =? 117)%N then
                  match s'' with
                  | String h1 (String h2 (String h3 (String h4 s5))) =>
                      match unicode_escape h1 h2 h3 h4 with
                      | Some ch => cons_char ch (parse_string_body s5)
                      | None => None
                      end
                  | _ => None
                  end
                else None
            end
        end
      else if (N_of_ascii c <? 32)%N then None
      else cons_char c (parse_string_body s')
  end.

(** The unsigned part of a number literal: [0], or a numeral without
    leading zero.  Literals with a fraction or an exponent denote numbers
    outside the modelled integers and are not accepted. *)
Definition parse_int (s : string) : option (N * string) :=
  match s with
  | String c s' =>
      if is_digit c then
        let '(n, rest) :=
          if (N_of_ascii c =? 48)%N then (0%N, s') else scan_digits s 0 in
        match rest with
        | String d _ =>
            if ((N_of_ascii d =? 46) || (N_of_ascii d =? 101) || (N_of_ascii d =? 69))%N
            then None
            else Some (n, rest)
        | EmptyString => Some (n, rest)
        end
      else None
  | EmptyString => None
  end.

(** A number literal: an optional minus sign, then the unsigned part. *)
Definition parse_number (s : string) : option (Z * string) :=
  match s with
  | String c s' =>
      if (N_of_ascii c =? 45)%N then
        match parse_int s' with
        | Some (n, rest) => Some ((- Z.of_N n)%Z, rest)
        | None => None
        end
      else
        match parse_int s with
        | Some (n, rest) => Some (Z.of_N n, rest)
        | None => None
        end
  | EmptyString => None
  end.

Definition literal (p : string) (v : json) (s : string) : option (json * string) :=
  match drop_prefix p s with
  | Some rest => Some (v, rest)
  | None => None
  end.

(** A member key and its colon. *)
Definition parse_key (s : string) : option (string * string) :=
  match skip_ws s with
  | String c s1 =>
      if (N_of_ascii c =? 34)%N then
        match parse_string_body s1 with
        | Some (k, s2) =>
            match skip_ws s2 with
            | String c' s3 => if (N_of_ascii c' =? 58)%N then Some (k, s3) else None
            | EmptyString => None
            end
        | None => None
        end
      else None
  | EmptyString => None
  end.

(** Recursive descent over the text.  Every call passes on one unit
    less of [fuel]; every nested call reads a strictly shorter text, so
    the length of the text plus one is enough fuel for any text. *)
Fixpoint parse_value (fuel : nat) (s : string) : option (json * string) :=
  match fuel with
  | O => None
  | S fuel' =>
      match skip_ws s with
      | EmptyString => None
      | String c s1 =>
          let n := N_of_ascii c in
          if (n =? 110)%N then literal "null" JNull (String c s1)
          else if (n =? 116)%N then literal "true" (JBool true) (String c s1)
          else if (n =? 102)%N then literal "false" (JBool false) (String c s1)
          else if (n =? 34)%N then
            match parse_string_body s1 with
            | Some (str, rest) => Some (JStr str, rest)
            | None => None
            end
          else if (n =? 91)%N then
            match skip_ws s1 with
            | String c' s2 =>
                if (N_of_ascii c' =? 93)%N then Some (JArr [], s2)
                else
                  match parse_value fuel' s1 with
                  | Some (x, s3) =>
                      match parse_elems fuel' s3 with
                      | Some (l, rest) => Some (JArr (x :: l), rest)
                      | None => None
                      end
                  | None => None
                  end
            | EmptyString => None
            end
          else if (n =? 123)%N then
            match skip_ws s1 with
            | String c' s2 =>
                if (N_of_ascii c' =? 125)%N then Some (JObj [], s2)
                else
                  match parse_key s1 with
                  | Some (k, s3) =>
                      match parse_value fuel' s3 with
                      | Some (x, s4) =>
                          match parse_members fuel' s4 with
                          | Some (l, rest) =>
                              Some (JObj (obj_of_members ((k, x) :: l)), rest)
                          | None => None
                          end
                      | None => None
                      end
                  | None => None
                  end
            | EmptyString => None
            end
          else
            match parse_number (String c s1) with
            | Some (z, rest) => Some (JNum z, rest)
            | None => None
            end
      end
  end
with parse_elems (fuel : nat) (s : string) : option (list json * string) :=
  match fuel with
  | O => None
  | S fuel' =>
      match skip_ws s with
      | EmptyString => None
      | String c s1 =>
          if (N_of_ascii c =? 93)%N then Some ([], s1)
          else if (N_of_ascii c =? 44)%N then
            match parse_value fuel' s1 with
            | Some (x, s2) =>
                match parse_elems fuel' s2 with
                | Some (l, rest) => Some (x :: l, rest)
                | None => None
                end
            | None => None
            end
          else None
      end
  end
with parse_members (fuel : nat) (s : string)
  : option (list (string * json) * string) :=
  match fuel with
  | O => None
  | S fuel' =>
      match skip_ws s with
      | EmptyString => None
      | String c s1 =>
          if (N_of_ascii c =? 125)%N then Some ([], s1)
          else if (N_of_ascii c =? 44)%N then
            match parse_key s1 with
            | Some (k, s2) =>
                match parse_value fuel' s2 with
                | Some (x, s3) =>
                    match parse_members fuel' s3 with
                    | Some (l, rest) => Some ((k, x) :: l, rest)
                    | None => None
                    end
                | None => None
                end
            | None => None
            end
          else None
      end
  end.

(** [JSON.parse(text)]: one value, with nothing but white space after
    it; [None] stands for the [SyntaxError] it throws.  The model is
    exact on the texts [stringify] gives for [json_wf] values; number
    literals with a fraction or an exponent and [\u] escapes above
    [00ff], which denote values outside [json], are refused here. *)
Definition parse (s : string) : option json :=
  match parse_value (S (String.length s)) s with
  | Some (v, rest) =>
      match skip_ws rest with
      | EmptyString => Some v
      | String _ _ => None
      end
  | None => None
  end.

(** What may follow a value inside a text: the end, a comma or a closing
    bracket or brace. *)
Definition delim (rest : string) : bool :=
  match rest with
  | EmptyString => true
  | String c _ =>
      let n := N_of_ascii c in ((n =? 44) || (n =? 93) || (n =? 125))%N
  end.

(** The characters a value can start with: [-], a digit, a quote, an
    opening bracket or brace, or the first letter of [null], [true],
    [false]. *)
Definition value_start (c : ascii) : bool :=
  let n := N_of_ascii c in
  (is_digit c || (n =? 45) || (n =? 34) || (n =? 91) || (n =? 123)
   || (n =? 110) || (n =? 116) || (n =? 102))%N.

(** [v] is read back from its own text, whatever follows it. *)
Definition roundtrips (v : json) : Prop :=
  forall (fuel : nat) (rest : string),
    String.length (stringify v) < fuel -> delim rest = true ->
    parse_value fuel (stringify v +:+ rest) = Some (v, rest).

End JSON.

(** ** The authentication context ([AuthProvider]) *)

Module AuthContext.
Import JS.

(** What the provider asks of the platform: the values [user] can hold,
    with [null] among them, and the JSON codec.  [JSON.parse] throws on
    the empty text. *)
Class Platform : Type := {
  value : Type;
  null : value;
  JSON_parse : string -> Completion value;
  JSON_stringify : value -> string;
  JSON_parse_empty : is_Throw (JSON_parse EmptyString);
}.

(** The argument of [authService.createUser]. *)
Record NewUser : Type := {
  name : string;
  email : string;
  password : string;
  role : string;
  avatar : string;
}.

(** [authService]: how the promise of each call settles. *)
Class AuthService {platform : Platform} : Type := {
  loginUser : string -> string -> Completion value;
  createUser : NewUser -> Completion value;
}.

Section Provider.
Context {platform : Platform} {auth : AuthService}.

(** The three state cells of the provider, [localStorage], and what
    was written with [console.error]. *)
Record World : Type := mkWorld {
  user : value;
  loading : bool;
  error : option string;
  localStorage : gmap string string;
  console : list (string * Error);
}.

(** The state a freshly mounted provider starts from:
    [useState(null)], [useState(true)], [useState(null)]. *)
Definition mount (storage : gmap string string) : World :=
  mkWorld null true None storage [].

(** Computations over the world that end normally or by a throw. *)
Definition M (A : Type) : Type := World -> Completion A * World.

#[export] Instance M_ret : MRet M := fun A a w => (Normal a, w).
#[export] Instance M_bind : MBind M := fun A B k m w =>
  match m w with
  | (Normal a, w') => k a w'
  | (Throw e, w') => (Throw e, w')
  end.

Definition throw {A} (e : Error) : M A := fun w => (Throw e, w).

(** [await p], for a promise that settles as [c]. *)
Definition await {A} (c : Completion A) : M A := fun w => (c, w).

(** [try { body } catch (e) { handler e }] *)
Definition try_catch {A} (body : M A) (handler : Error -> M A) : M A :=
  fun w =>
    match body w with
    | (Normal a, w') => (Normal a, w')
    | (Throw e, w') => handler e w'
    end.

(** [try { body } finally { fin }]: [fin] always runs; the completion
    is that of [body] unless [fin] itself throws. *)
Definition try_finally {A} (body : M A) (fin : M unit) : M A :=
  fun w =>
    let '(c, w') := body w in
    match fin w' with
    | (Normal _, w'') => (c, w'')
    | (Throw e, w'') => (Throw e, w'')
    end.

Definition setUser (u : value) : M unit := fun w =>
  (Normal (), mkWorld u (loading w) (error w) (localStorage w) (console w)).
Definition setLoading (b : bool) : M unit := fun w =>
  (Normal (), mkWorld (user w) b (error w) (localStorage w) (console w)).
Definition setError (e : option string) : M unit := fun w =>
  (Normal (), mkWorld (user w) (loading w) e (localStorage w) (console w)).

Definition localStorage_getItem (k : string) : M (option string) := fun w =>
  (Normal (localStorage w !! k), w).
Definition localStorage_setItem (k v : string) : M unit := fun w =>
  (Normal (),
   mkWorld (user w) (loading w) (error w) (<[k:=v]> (localStorage w)) (console w)).
Definition localStorage_removeItem (k : string) : M unit := fun w =>
  (Normal (),
   mkWorld (user w) (loading w) (error w) (delete k (localStorage w)) (console w)).

Definition console_error (msg : string) (e : Error) : M unit := fun w =>
  (Normal (),
   mkWorld (user w) (loading w) (error w) (localStorage w) (console w ++ [(msg, e)])).

(** The effect run once after mounting. *)
Definition restore : M unit :=
  try_finally
    (try_catch
       (storedUser ← localStorage_getItem "user";
        if string_truthy storedUser then
          match storedUser with
          | Some text => parsed ← await (JSON_parse text); setUser parsed
          | None => mret ()
          end
        else mret ())
       (fun e =>
          console_error "Failed to parse user from local storage" e;;
          localStorage_removeItem "user"))
    (setLoading false).

Definition login (email pass : string) : M value :=
  setLoading true;;
  setError None;;
  try_finally
    (try_catch
       (loggedInUser ← await (loginUser email pass);
        setUser loggedInUser;;
        localStorage_setItem "user" (JSON_stringify loggedInUser);;
        mret loggedInUser)
       (fun err => setError (Some (message err));; throw err))
    (setLoading false).

Definition signup (name email pass avatar : string) : M unit :=
  setLoading true;;
  setError None;;
  try_finally
    (try_catch
       (_ ← await (createUser
                     {| name := name; email := email; password := pass;
                        role := "user"; avatar := avatar |});
        mret ())
       (fun err => setError (Some (message err));; throw err))
    (setLoading false).

Definition logout : M unit :=
  setUser null;;
  localStorage_removeItem "user".

Definition updateCurrentUser (updatedUser : value) : M unit :=
  setUser updatedUser;;
  localStorage_setItem "user" (JSON_stringify updatedUser).

(** [useAuth]: the context value, or a throw outside a provider
    ([None] is the [undefined] default of the context). *)
Definition useAuth {C : Type} (context : option C) : Completion C :=
  match context with
  | None => Throw (new_Error "useAuth must be used within an AuthProvider")
  | Some c => Normal c
  end.

(** The operations of the context value, [{ login, signup, logout,
    updateCurrentUser }], as a consumer calls them one after the other,
    each one settled before the next. *)
Inductive Call : Type :=
| call_login (email pass : string)
| call_signup (name email pass avatar : string)
| call_logout
| call_updateCurrentUser (updatedUser : value).

(** The world a call leaves behind, however it ends. *)
Definition run_call (w : World) (c : Call) : World :=
  match c with
  | call_login email pass => (login email pass w).2
  | call_signup name email pass avatar => (signup name email pass avatar w).2
  | call_logout => (logout w).2
  | call_updateCurrentUser updatedUser => (updateCurrentUser updatedUser w).2
  end.

(** The provider is mounted on [storage], its effect runs, then the
    calls are made. *)
Definition session (storage : gmap string string) (calls : list Call) : World :=
  fold_left run_call calls (restore (mount storage)).2.

(** A provider mounted afresh on the storage of [w] (a page reload)
    restores the [user] of [w]. *)
Definition survives_reload (w : World) : Prop :=
  user (restore (mount (localStorage w))).2 = user w.

(** A record the codec reads back from its own text. *)
Definition round_trips (record : value) : Prop :=
  JSON_parse (JSON_stringify record) = Normal record.

(** The records the backend hands out, and the records a caller hands to
    [updateCurrentUser], are read back by the codec. *)
Definition backend_round_trips : Prop :=
  forall email pass record,
    loginUser email pass = Normal record -> round_trips record.

Definition call_round_trips (c : Call) : Prop :=
  match c with
  | call_updateCurrentUser updatedUser => round_trips updatedUser
  | _ => True
  end.
End Provider.

(** A small backend for examples: one account, every sign-up accepted. *)
Definition sample_user : json :=
  JObj [("id", JNum 7); ("name", JStr "Ada"); ("email", JStr "ada@example.org");
        ("role", JStr "user"); ("tags", JArr [JStr "a"; JNull; JBool true])].

(** The platform of the modelled JSON values. *)
#[export] Instance json_platform : Platform := {|
  value := json;
  null := JNull;
  JSON_parse text :=
    match JSON.parse text with
    | Some v => Normal v
    | None => Throw SyntaxError
    end;
  JSON_stringify := JSON.stringify;
  JSON_parse_empty := I;
|}.

Definition sample_backend : @AuthService json_platform := {|
  loginUser email pass :=
    if String.eqb email "ada@example.org" && String.eqb pass "s3cret"
    then Normal sample_user
    else Throw (new_Error "Invalid credentials");
  createUser u := Normal JNull;
|}.

(** A backend with two accounts that refuses to create an account for
    an address it already knows. *)
Definition second_user : json :=
  JObj [("id", JStr "u-2"); ("name", JStr "Grace"); ("email", JStr "grace@example.org")].

Definition strict_backend : @AuthService json_platform := {|
  loginUser email pass :=
    if String.eqb email "ada@example.org" && String.eqb pass "s3cret"
    then Normal sample_user
    else if String.eqb email "grace@example.org" && String.eqb pass "c0b0l"
    then Normal second_user
    else Throw (new_Error "Invalid credentials");
  createUser u :=
    if String.eqb (email u) "ada@example.org"
       || String.eqb (email u) "grace@example.org"
    then Throw (new_Error "Email already registered")
    else Normal JNull;
|}.

End AuthContext.

(** ** The archive upload client *)

Module ArchiveService.
Import JS.

(** A [File], as far as the client looks at it. *)
Record File : Type := { file_name : string; file_type : string }.

(** [type MediaType = 'movies' | 'texts' | 'image'] *)
Inductive MediaType : Type := movies | texts | image.

(** The string a [MediaType] is at run time. *)
Definition MediaType_string (m : MediaType) : string :=
  match m with
  | movies => "movies"
  | texts => "texts"
  | image => "image"
  end.

(** [s.startsWith(p)] *)
Definition startsWith (s p : string) : bool := String.prefix p s.

Definition getMediaType (file : File) : MediaType :=
  if startsWith (file_type file) "video/" then movies
  else if String.eqb (file_type file) "application/pdf" then texts
  else if startsWith (file_type file) "image/" then image
  else texts.

(** [process?.env?.NAME || '']: the variable's value, or the empty
    string when it is unset or empty. *)
Definition env_or_empty (env : gmap string string) (name : string) : string :=
  if string_truthy (env !! name) then default EmptyString (env !! name)
  else EmptyString.

Definition ACCESS_KEY (env : gmap string string) : string :=
  env_or_empty env "ARCHIVE_ACCESS_KEY".
Definition SECRET_KEY (env : gmap string string) : string :=
  env_or_empty env "ARCHIVE_SECRET_KEY".

(** What the client does to its [XMLHttpRequest], in order. *)
Inductive XhrCall : Type :=
| xhr_open (method url : string) (async : bool)
| xhr_setRequestHeader (header value : string)
| xhr_send (body : File).

(** The state of the returned promise. *)
Inductive Promise : Type :=
| Pending
| Resolved (url : string)
| Rejected (e : Error).

(** What can be observed of one upload: the promise, the calls made on
    the transport, the lines written with [console.error], and whether
    the [onload] / [onerror] handlers are installed on a request. *)
Record Upload : Type := mkUpload {
  promise : Promise;
  transport : list XhrCall;
  console : list string;
  listening : bool;
}.

(** What the transport reports back ([onprogress] only calls the
    caller's [onProgress] with a rounded floating-point percentage and is
    left out). *)
Inductive XhrEvent : Type :=
| ev_load (status : Z) (statusText responseText : string)
| ev_error.

Definition is_send (c : XhrCall) : bool :=
  match c with
  | xhr_send _ => true
  | _ => false
  end.

Definition not_configured : string :=
  "Archive service API keys are not configured. Please set ARCHIVE_ACCESS_KEY and ARCHIVE_SECRET_KEY environment variables.".

Section Upload.
(** [encodeURIComponent] of the platform. *)
Variable encodeURIComponent : string -> string.
(** [process.env] when the module was loaded. *)
Variable env : gmap string string.

(** The body of the promise executor, run when [uploadFile] is called. *)
Definition uploadFile (file : File) (itemName : string) : Upload :=
  if negb (string_truthy (Some (ACCESS_KEY env)))
     || negb (string_truthy (Some (SECRET_KEY env)))
  then
    let errorMessage := not_configured in
    mkUpload (Rejected (new_Error errorMessage)) [] [errorMessage] false
  else
    let url := "https://s3.us.archive.org/" +:+ itemName +:+ "/"
               +:+ encodeURIComponent (file_name file) in
    let mediaType := getMediaType file in
    mkUpload Pending
      [ xhr_open "PUT" url true;
        xhr_setRequestHeader "Authorization"
          ("LOW " +:+ ACCESS_KEY env +:+ ":" +:+ SECRET_KEY env);
        xhr_setRequestHeader "x-amz-auto-make-bucket" "1";
        xhr_setRequestHeader "x-archive-meta-collection" "opensource";
        xhr_setRequestHeader "x-archive-meta-mediatype" (MediaType_string mediaType);
        xhr_setRequestHeader "Content-Type" (file_type file);
        xhr_send file ]
      [] true.

(** A promise settles once; a later [resolve] or [reject] does nothing. *)
Definition settle (p : Promise) (u : Upload) : Upload :=
  match promise u with
  | Pending => mkUpload p (transport u) (console u) (listening u)
  | _ => u
  end.

(** [xhr.onload] and [xhr.onerror]. *)
Definition on_event (file : File) (itemName : string) (u : Upload)
    (ev : XhrEvent) : Upload :=
  if listening u then
    match ev with
    | ev_load status statusText responseText =>
        if ((200 <=? status) && (status <? 300))%Z then
          let publicUrl := "https://archive.org/download/" +:+ itemName +:+ "/"
                           +:+ encodeURIComponent (file_name file) in
          settle (Resolved publicUrl) u
        else
          settle (Rejected (new_Error
                    ("Upload failed: " +:+ Number_toString status +:+ " "
                     +:+ statusText +:+ " - " +:+ responseText))) u
    | ev_error => settle (Rejected (new_Error "Network error during upload.")) u
    end
  else u.
End Upload.

End ArchiveService.

(** ** The resource list client *)

Module ResourceService.
Import JS.

(** A [Response], as far as the client looks at it: [response.ok] and
    how the promise of [response.json()] settles. *)
Record Response : Type := { ok : bool; json_body : Completion json }.

(** [getResources], given how the promise of [fetch(API_URL)] settles. *)
Definition getResources (fetched : Completion Response) : Completion (list json) :=
  response ← fetched;
  if negb (ok response) then Throw (new_Error "Failed to fetch resources")
  else
    data ← json_body response;
    data_data ← Get data "data";
    let resources := if truthy data_data then data_data else Some (JArr []) in
    match resources with
    | Some (JArr records) =>
        map_throwing
          (fun resource =>
             id ← Get resource "id";
             text ← String_ id;
             Normal (JObj (obj_set "id" (JStr text) (own_props resource))))
          records
    | _ => Throw TypeError
    end.

(** The body of the response, when there is one, is a value the model
    is exact on (its numbers are safe integers). *)
Definition body_wf (fetched : Completion Response) : Prop :=
  match fetched with
  | Normal response =>
      match json_body response with
      | Normal data => JSON.json_wf data
      | Throw _ => True
      end
  | Throw _ => True
  end.

(** *** The write operations *)

Definition API_URL : string :=
  "https://script.google.com/macros/s/AKfycbxN_P9tB-rr6kVKy9MZwnZ2qb-c8meyTZaloyAglJ48xuJdbopda7PQsROJyipYGzfskw/exec".

(** A [FormData]: its entries in the order they were appended. *)
Definition FormData : Type := list (string * string).

(** [formData.append(name, value)] for a value that is not a file: the
    entry holds the value converted to a string ([None] is [undefined]). *)
Definition append (name : string) (value : option json) (formData : FormData)
  : Completion FormData :=
  text ← String_ value;
  Normal (formData ++ [(name, text)]).

(** The [fetch] calls of the write operations:
    [fetch(API_URL, { method, mode, body })]. *)
Record Request : Type := {
  url : string;
  method : string;
  mode : string;
  body : FormData;
}.

(** The form each operation builds before it calls [fetch]. *)
Definition create_formData (resource : json) : Completion FormData :=
  formData ← append "action" (Some (JStr "create")) [];
  title ← Get resource "title";
  formData ← append "title" title formData;
  Subject_Name ← Get resource "Subject_Name";
  formData ← append "Subject_Name" Subject_Name formData;
  video_link ← Get resource "video_link";
  formData ← append "video_link" video_link formData;
  pdf_link ← Get resource "pdf_link";
  formData ← append "pdf_link" pdf_link formData;
  image_url ← Get resource "image_url";
  append "image_url" image_url formData.

Definition update_formData (resource : json) : Completion FormData :=
  formData ← append "action" (Some (JStr "update")) [];
  id ← Get resource "id";
  formData ← append "id" id formData;
  title ← Get resource "title";
  formData ← append "title" title formData;
  Subject_Name ← Get resource "Subject_Name";
  formData ← append "Subject_Name" Subject_Name formData;
  video_link ← Get resource "video_link";
  formData ← append "video_link" video_link formData;
  pdf_link ← Get resource "pdf_link";
  formData ← append "pdf_link" pdf_link formData;
  image_url ← Get resource "image_url";
  append "image_url" image_url formData.

Definition delete_formData (id : option json) : Completion FormData :=
  formData ← append "action" (Some (JStr "delete")) [];
  append "id" id formData.

(** A property value that is absent or a primitive: [undefined], [null],
    a boolean, a number or a string. *)
Definition flat (v : option json) : Prop :=
  match v with
  | Some (JArr _) | Some (JObj _) => False
  | _ => True
  end.

Section Writes.
(** How the promise of each [fetch] call settles. *)
Variable fetch : Request -> Completion Response.

(** What a call did: the requests it handed to [fetch], and how its own
    promise settles.  The response is awaited and then dropped. *)
Definition post (formData : Completion FormData) : list Request * Completion unit :=
  match formData with
  | Normal formData =>
      let request :=
        {| url := API_URL; method := "POST"; mode := "no-cors"; body := formData |} in
      ([request], _ ← fetch request; Normal ())
  | Throw e => ([], Throw e)
  end.

Definition createResource (resource : json) : list Request * Completion unit :=
  post (create_formData resource).

Definition updateResource (resource : json) : list Request * Completion unit :=
  post (update_formData resource).

Definition deleteResource (id : option json) : list Request * Completion unit :=
  post (delete_formData id).
End Writes.

(** A response for examples: one numeric and one textual identifier. *)
Definition sample_records : list json :=
  [ JObj [("id", JNum 1); ("title", JStr "Algebra"); ("pdf_link", JStr "a.pdf")];
    JObj [("title", JStr "Optics"); ("id", JStr "2"); ("video_link", JNull)] ].

Definition sample_response : Response :=
  {| ok := true; json_body := Normal (JObj [("data", JArr sample_records)]) |}.

(** What [getResources] returns for [sample_response], a response that
    is not [ok], and a resource as a form hands it to the write
    operations. *)
Definition sample_listed : list json :=
  [ JObj [("id", JStr "1"); ("title", JStr "Algebra"); ("pdf_link", JStr "a.pdf")];
    JObj [("title", JStr "Optics"); ("id", JStr "2"); ("video_link", JNull)] ].

Definition failed_response : Response :=
  {| ok := false; json_body := Throw SyntaxError |}.

Definition sample_resource : list (string * json) :=
  [("id", JNum 12); ("title", JStr "Optics"); ("Subject_Name", JStr "Physics");
   ("video_link", JNull); ("pdf_link", JStr "o.pdf")].

End ResourceService.

(* ===================================================================== *)
(** * Part II: theorems *)
(* ===================================================================== *)

(** ** Strings and numerals *)

Module StringFacts.
Import JS.

Lemma app_String (c : ascii) (s r : string) : String c s +:+ r = String c (s +:+ r).
Proof. reflexivity. Qed.

Lemma app_Empty (r : string) : EmptyString +:+ r = r.
Proof. reflexivity. Qed.

Lemma app_assoc (a b c : string) : (a +:+ b) +:+ c = a +:+ (b +:+ c).
Proof. induction a as [|x a IH]; [reflexivity|]. rewrite !app_String. by rewrite IH. Qed.

Ltac norm_app :=
  repeat (rewrite app_String || rewrite app_Empty || rewrite app_assoc).
Ltac norm_app_in H :=
  repeat (rewrite app_String in H || rewrite app_Empty in H || rewrite app_assoc in H).

Lemma length_app (a b : string) :
  String.length (a +:+ b) = String.length a + String.length b.
Proof. induction a as [|x a IH]; [reflexivity|]. rewrite app_String. simpl. by rewrite IH. Qed.

Lemma digit_char_code (d : N) : (d < 10)%N -> N_of_ascii (digit_char d) = (48 + d)%N.
Proof. intros Hd. unfold digit_char. apply N_ascii_embedding. lia. Qed.

Lemma is_digit_digit_char (d : N) : (d < 10)%N -> is_digit (digit_char d) = true.
Proof.
  intros Hd. unfold is_digit. rewrite digit_char_code by done.
  apply andb_true_iff. split; apply N.leb_le; lia.
Qed.

Lemma digit_val_digit_char (d : N) : (d < 10)%N -> digit_val (digit_char d) = d.
Proof. intros Hd. unfold digit_val. rewrite digit_char_code by done. lia. Qed.

Lemma scan_digits_digit (d : N) (s : string) (acc : N) :
  (d < 10)%N ->
  scan_digits (String (digit_char d) s) acc = scan_digits s (10 * acc + d)%N.
Proof.
  intros Hd. simpl. by rewrite is_digit_digit_char, digit_val_digit_char.
Qed.

(** Reading back the digits written in front of [acc]. *)
Lemma scan_digits_aux (fuel : nat) :
  forall (n : N) (acc r : string),
    (n < 10 ^ N.of_nat fuel)%N ->
    scan_digits (digits_aux fuel n acc +:+ r) 0 = scan_digits (acc +:+ r) n.
Proof.
  induction fuel as [|fuel IH]; intros n acc r Hn.
  - simpl in *. by replace n with 0%N by lia.
  - simpl. destruct (N.ltb_spec n 10) as [Hlt|Hge].
    + rewrite app_String, scan_digits_digit by (apply N.mod_lt; lia).
      f_equal. rewrite N.mod_small by done. lia.
    + rewrite IH.
      * rewrite app_String, scan_digits_digit by (apply N.mod_lt; lia).
        f_equal. pose proof (N.div_mod n 10). lia.
      * rewrite Nat2N.inj_succ, N.pow_succ_r' in Hn.
        apply N.Div0.div_lt_upper_bound. lia.
Qed.

Lemma enough_digits (n : N) : (n < 10 ^ N.of_nat (S (N.to_nat (N.log2 n))))%N.
Proof.
  rewrite Nat2N.inj_succ, N2Nat.id.
  destruct (N.eq_dec n 0%N) as [->|Hn]; [reflexivity|].
  apply N.lt_le_trans with (2 ^ N.succ (N.log2 n))%N.
  - apply N.log2_spec. lia.
  - apply N.pow_le_mono_l. lia.
Qed.

Lemma scan_digits_string_of_N (n : N) (r : string) :
  scan_digits (string_of_N n +:+ r) 0 = scan_digits r n.
Proof. unfold string_of_N. rewrite scan_digits_aux by apply enough_digits. done. Qed.

(** The numeral of a positive number starts with a digit other than 0. *)
Lemma digits_aux_head (fuel : nat) :
  forall (n : N) (acc : string),
    n <> 0%N -> (n < 10 ^ N.of_nat fuel)%N ->
    exists c s, digits_aux fuel n acc = String c s
                /\ is_digit c = true /\ N_of_ascii c <> 48%N.
Proof.
  induction fuel as [|fuel IH]; intros n acc Hn0 Hn.
  - simpl in Hn. lia.
  - simpl. destruct (N.ltb_spec n 10) as [Hlt|Hge].
    + eexists _, _. split; [reflexivity|].
      rewrite N.mod_small by done.
      split; [by apply is_digit_digit_char|].
      rewrite digit_char_code by done. lia.
    + apply IH.
      * intros H0. apply N.div_small_iff in H0; lia.
      * rewrite Nat2N.inj_succ, N.pow_succ_r' in Hn.
        apply N.Div0.div_lt_upper_bound. lia.
Qed.

Lemma string_of_N_head (n : N) :
  n <> 0%N ->
  exists c s, string_of_N n = String c s
              /\ is_digit c = true /\ N_of_ascii c <> 48%N.
Proof. intros Hn. apply digits_aux_head; [done | apply enough_digits]. Qed.

Lemma string_of_N_0 : string_of_N 0 = "0".
Proof. reflexivity. Qed.

End StringFacts.

(** ** The JSON codec round-trips *)

Module JSONFacts.
Import JS JSON StringFacts.

(** Induction on values, with the hypothesis for every element of an
    array and every property value of an object. *)
Lemma json_ind' (P : json -> Prop) :
  P JNull -> (forall b, P (JBool b)) -> (forall z, P (JNum z)) ->
  (forall s, P (JStr s)) ->
  (forall l, Forall P l -> P (JArr l)) ->
  (forall l, Forall (fun kv => P (snd kv)) l -> P (JObj l)) ->
  forall v, P v.
Proof.
  intros Hnull Hbool Hnum Hstr Harr Hobj.
  fix IH 1. intros [ | b | z | s | l | l].
  - exact Hnull.
  - apply Hbool.
  - apply Hnum.
  - apply Hstr.
  - apply Harr.
    exact ((fix go (l : list json) : Forall P l :=
              match l with
              | [] => List.Forall_nil P
              | x :: l' => @List.Forall_cons _ P x l' (IH x) (go l')
              end) l).
  - apply Hobj.
    exact ((fix go (l : list (string * json)) : Forall (fun kv => P (snd kv)) l :=
              match l with
              | [] => List.Forall_nil _
              | kv :: l' => @List.Forall_cons _ _ kv l' (IH (snd kv)) (go l')
              end) l).
Qed.

Lemma stringify_arr (x : json) (l : list json) :
  stringify (JArr (x :: l)) = "[" +:+ stringify x +:+ elems_tail l.
Proof. reflexivity. Qed.

Lemma stringify_obj (k : string) (x : json) (l : list (string * json)) :
  stringify (JObj ((k, x) :: l))
  = "{" +:+ quote k +:+ ":" +:+ stringify x +:+ members_tail l.
Proof. reflexivity. Qed.

(** *** String literals *)

Lemma parse_escape_char (c : ascii) (t : string) :
  parse_string_body (escape_char c +:+ t) = cons_char c (parse_string_body t).
Proof.
  destruct c as [b0 b1 b2 b3 b4 b5 b6 b7].
  destruct b0, b1, b2, b3, b4, b5, b6, b7; reflexivity.
Qed.

Lemma parse_string_body_escape (s rest : string) :
  parse_string_body (escape s +:+ String dquote rest) = Some (s, rest).
Proof.
  induction s as [|c s IH]; [reflexivity|].
  simpl escape. rewrite app_assoc, parse_escape_char, IH. reflexivity.
Qed.

Lemma quote_app (s rest : string) :
  quote s +:+ rest = String dquote (escape s +:+ String dquote rest).
Proof. unfold quote. by rewrite app_String, app_assoc. Qed.

Lemma parse_key_quote (k rest : string) :
  parse_key (quote k +:+ String ":" rest) = Some (k, rest).
Proof.
  rewrite quote_app. unfold parse_key.
  change (skip_ws (String dquote ?t)) with (String dquote t).
  cbv beta iota. change (N_of_ascii dquote =? 34)%N with true. cbv iota.
  by rewrite parse_string_body_escape.
Qed.

(** *** Number literals *)

Lemma delim_cases (rest : string) :
  delim rest = true ->
  rest = EmptyString \/
  exists t, rest = String "," t \/ rest = String "]" t \/ rest = String "}" t.
Proof.
  destruct rest as [|c t]; [by left|]. intros H. right. exists t.
  unfold delim in H. rewrite <- (ascii_N_embedding c).
  destruct (N.eqb_spec (N_of_ascii c) 44) as [->|_]; [by left|].
  destruct (N.eqb_spec (N_of_ascii c) 93) as [->|_]; [by right; left|].
  destruct (N.eqb_spec (N_of_ascii c) 125) as [->|_]; [by right; right|].
  discriminate.
Qed.

Ltac delim_cases H :=
  destruct (delim_cases _ H) as [->|[? [->|[->| ->]]]].

Lemma scan_digits_delim (rest : string) (n : N) :
  delim rest = true -> scan_digits rest n = (n, rest).
Proof. intros H. delim_cases H; reflexivity. Qed.

Lemma string_of_N_digit (n : N) :
  exists c s, string_of_N n = String c s /\ is_digit c = true.
Proof.
  destruct (N.eq_dec n 0%N) as [->|Hn].
  - by exists "0"%char, EmptyString.
  - destruct (string_of_N_head n Hn) as (c & s & Heq & Hd & _). eauto.
Qed.

Lemma parse_int_string_of_N (n : N) (rest : string) :
  delim rest = true -> parse_int (string_of_N n +:+ rest) = Some (n, rest).
Proof.
  intros Hrest. destruct (N.eq_dec n 0%N) as [->|Hn].
  - delim_cases Hrest; reflexivity.
  - destruct (string_of_N_head n Hn) as (c & s & Heq & Hd & H48).
    unfold parse_int. rewrite Heq, app_String, Hd.
    apply N.eqb_neq in H48. rewrite H48.
    rewrite <- app_String, <- Heq, scan_digits_string_of_N, scan_digits_delim by done.
    delim_cases Hrest; reflexivity.
Qed.

Lemma not_minus_digit (c : ascii) : is_digit c = true -> (N_of_ascii c =? 45)%N = false.
Proof.
  unfold is_digit. intros [H1 _]%andb_true_iff. apply N.leb_le in H1.
  apply N.eqb_neq. lia.
Qed.

Lemma parse_number_toString (z : Z) (rest : string) :
  delim rest = true ->
  parse_number (Number_toString z +:+ rest) = Some (z, rest).
Proof.
  intros Hrest. unfold Number_toString. destruct (Z.ltb_spec z 0) as [Hneg|Hpos].
  - rewrite app_String. unfold parse_number.
    change (N_of_ascii "-" =? 45)%N with true. cbv iota.
    rewrite parse_int_string_of_N by done. do 2 f_equal.
    rewrite N2Z.inj_abs_N. lia.
  - destruct (string_of_N_digit (Z.abs_N z)) as (c & s & Heq & Hd).
    unfold parse_number. rewrite Heq, app_String, (not_minus_digit c Hd).
    rewrite <- app_String, <- Heq, parse_int_string_of_N by done. do 2 f_equal.
    rewrite N2Z.inj_abs_N. lia.
Qed.

(** *** The first character of a printed value *)

Lemma Number_toString_head (z : Z) :
  exists c s, Number_toString z = String c s
              /\ (is_digit c || (N_of_ascii c =? 45)%N) = true.
Proof.
  unfold Number_toString. destruct (z <? 0)%Z.
  - by eexists _, _.
  - destruct (string_of_N_digit (Z.abs_N z)) as (c & s & -> & Hd).
    exists c, s. by rewrite Hd.
Qed.

Lemma stringify_head (v : json) :
  exists c s, stringify v = String c s /\ value_start c = true.
Proof.
  destruct v as [ | [|] | z | s | [|x l] | [|[k x] l]];
    try (by eexists _, _).
  destruct (Number_toString_head z) as (c & s & Heq & Hc).
  exists c, s. split; [done|]. unfold value_start.
  apply orb_true_iff in Hc as [-> | ->]; [done|]. by rewrite orb_true_r.
Qed.

Lemma value_start_skip_ws (c : ascii) (t : string) :
  value_start c = true -> skip_ws (String c t) = String c t.
Proof.
  destruct c as [b0 b1 b2 b3 b4 b5 b6 b7].
  destruct b0, b1, b2, b3, b4, b5, b6, b7; intros H;
    first [ reflexivity | vm_compute in H; discriminate ].
Qed.

Lemma value_start_not_close (c : ascii) :
  value_start c = true ->
  (N_of_ascii c =? 93)%N = false /\ (N_of_ascii c =? 125)%N = false.
Proof.
  destruct c as [b0 b1 b2 b3 b4 b5 b6 b7].
  destruct b0, b1, b2, b3, b4, b5, b6, b7; intros H;
    first [ by split | vm_compute in H; discriminate ].
Qed.

(** *** Unfolding the parser on the first character *)

Lemma parse_value_number (fuel : nat) (c : ascii) (t : string) :
  (is_digit c || (N_of_ascii c =? 45)%N) = true ->
  parse_value (S fuel) (String c t)
  = match parse_number (String c t) with
    | Some (z, rest) => Some (JNum z, rest)
    | None => None
    end.
Proof.
  destruct c as [b0 b1 b2 b3 b4 b5 b6 b7].
  destruct b0, b1, b2, b3, b4, b5, b6, b7; intros H;
    first [ reflexivity | vm_compute in H; discriminate ].
Qed.

Lemma parse_value_arr (fuel : nat) (c : ascii) (t : string) :
  value_start c = true ->
  parse_value (S fuel) (String "[" (String c t))
  = match parse_value fuel (String c t) with
    | Some (x, s3) =>
        match parse_elems fuel s3 with
        | Some (l, rest) => Some (JArr (x :: l), rest)
        | None => None
        end
    | None => None
    end.
Proof.
  intros Hc. destruct (value_start_not_close c Hc) as [H93 _].
  pose proof (value_start_skip_ws c t Hc) as Hws.
  cbn [parse_value]. change (skip_ws (String "[" ?u)) with (String "[" u).
  cbv beta iota zeta.
  change (N_of_ascii "[") with 91%N. cbn [N.eqb Pos.eqb].
  by rewrite Hws, H93.
Qed.

Lemma parse_value_obj (fuel : nat) (t : string) :
  parse_value (S fuel) (String "{" (String dquote t))
  = match parse_key (String dquote t) with
    | Some (k, s3) =>
        match parse_value fuel s3 with
        | Some (x, s4) =>
            match parse_members fuel s4 with
            | Some (l, rest) => Some (JObj (obj_of_members ((k, x) :: l)), rest)
            | None => None
            end
        | None => None
        end
    | None => None
    end.
Proof. reflexivity. Qed.

Lemma parse_elems_close (fuel : nat) (t : string) :
  parse_elems (S fuel) (String "]" t) = Some ([], t).
Proof. reflexivity. Qed.

Lemma parse_elems_comma (fuel : nat) (t : string) :
  parse_elems (S fuel) (String "," t)
  = match parse_value fuel t with
    | Some (x, s2) =>
        match parse_elems fuel s2 with
        | Some (l, rest) => Some (x :: l, rest)
        | None => None
        end
    | None => None
    end.
Proof. reflexivity. Qed.

Lemma parse_members_close (fuel : nat) (t : string) :
  parse_members (S fuel) (String "}" t) = Some ([], t).
Proof. reflexivity. Qed.

Lemma parse_members_comma (fuel : nat) (t : string) :
  parse_members (S fuel) (String "," t)
  = match parse_key t with
    | Some (k, s2) =>
        match parse_value fuel s2 with
        | Some (x, s3) =>
            match parse_members fuel s3 with
            | Some (l, rest) => Some ((k, x) :: l, rest)
            | None => None
            end
        | None => None
        end
    | None => None
    end.
Proof. reflexivity. Qed.

(** *** Well-formed values *)

Lemma json_wf_arr (l : list json) : json_wf (JArr l) <-> Forall json_wf l.
Proof.
  induction l as [|x l IH]; [by split; [constructor|]|].
  change (json_wf (JArr (x :: l))) with (json_wf x /\ json_wf (JArr l)).
  rewrite IH. split; [intros []; by constructor | by inversion 1].
Qed.

Lemma json_wf_obj (l : list (string * json)) :
  json_wf (JObj l)
  <-> obj_of_members l = l /\ Forall (fun kv => json_wf (snd kv)) l.
Proof.
  change (json_wf (JObj l)) with
    (obj_of_members l = l /\
     (fix all (l : list (string * json)) : Prop :=
        match l with
        | [] => True
        | (_, x) :: l' => json_wf x /\ all l'
        end) l).
  apply and_iff_compat_l.
  induction l as [|[k x] l IH]; [by split; [constructor|]|].
  rewrite IH. split; [intros []; by constructor | by inversion 1].
Qed.

Lemma Forall_modus {A} (Q R : A -> Prop) (l : list A) :
  Forall (fun x => Q x -> R x) l -> Forall Q l -> Forall R l.
Proof. induction 1; inversion 1; constructor; auto. Qed.

(** *** Arrays and objects *)

Lemma delim_elems_tail (l : list json) (rest : string) :
  delim (elems_tail l +:+ rest) = true.
Proof. destruct l; reflexivity. Qed.

Lemma delim_members_tail (l : list (string * json)) (rest : string) :
  delim (members_tail l +:+ rest) = true.
Proof. destruct l as [|[k x] l]; reflexivity. Qed.

Lemma elems_roundtrip (l : list json) :
  Forall roundtrips l ->
  forall (fuel : nat) (rest : string),
    String.length (elems_tail l) < fuel ->
    parse_elems fuel (elems_tail l +:+ rest) = Some (l, rest).
Proof.
  induction 1 as [|x l Hx _ IH]; intros [|fuel] rest Hlen; try (simpl in Hlen; lia).
  - reflexivity.
  - simpl elems_tail in *. norm_app. norm_app_in Hlen.
    rewrite parse_elems_comma.
    simpl in Hlen. rewrite length_app in Hlen.
    rewrite Hx by (lia || apply delim_elems_tail).
    by rewrite IH by lia.
Qed.

Lemma members_roundtrip (l : list (string * json)) :
  Forall (fun kv => roundtrips (snd kv)) l ->
  forall (fuel : nat) (rest : string),
    String.length (members_tail l) < fuel ->
    parse_members fuel (members_tail l +:+ rest) = Some (l, rest).
Proof.
  induction 1 as [|[k x] l Hx _ IH]; intros [|fuel] rest Hlen; try (simpl in Hlen; lia).
  - reflexivity.
  - simpl snd in Hx. cbn [members_tail] in *. norm_app. norm_app_in Hlen.
    rewrite parse_members_comma, parse_key_quote.
    simpl in Hlen. rewrite !length_app in Hlen. simpl in Hlen.
    rewrite length_app in Hlen.
    rewrite Hx by (lia || apply delim_members_tail).
    by rewrite IH by lia.
Qed.

(** Every well-formed value is read back from its own text. *)
Lemma stringify_roundtrips (v : json) : json_wf v -> roundtrips v.
Proof.
  induction v as [ | b | z | s | l IH | l IH ] using json_ind'; intros Hwf.
  - intros [|fuel] rest Hlen Hrest; [simpl in Hlen; lia|]. reflexivity.
  - intros [|fuel] rest Hlen Hrest; [destruct b; simpl in Hlen; lia|].
    by destruct b.
  - intros [|fuel] rest Hlen Hrest; [lia|].
    destruct (Number_toString_head z) as (c & t & Heq & Hc).
    simpl stringify. rewrite Heq, app_String, parse_value_number by done.
    by rewrite <- app_String, <- Heq, parse_number_toString.
  - intros [|fuel] rest Hlen Hrest; [lia|].
    simpl stringify. rewrite quote_app.
    change (parse_value (S fuel) (String dquote ?t))
      with (match parse_string_body t with
            | Some (str, rest) => Some (JStr str, rest)
            | None => None
            end).
    by rewrite parse_string_body_escape.
  - apply json_wf_arr in Hwf. pose proof (Forall_modus _ _ _ IH Hwf) as Hall.
    clear IH Hwf. destruct Hall as [|x l Hx Hl].
    { intros [|fuel] rest Hlen Hrest; [simpl in Hlen; lia|]. reflexivity. }
    intros [|fuel] rest Hlen Hrest; [lia|].
    rewrite stringify_arr in *. norm_app. norm_app_in Hlen.
    simpl in Hlen. rewrite length_app in Hlen.
    destruct (stringify_head x) as (c & t & Heq & Hc).
    rewrite Heq, app_String, parse_value_arr by done.
    rewrite <- app_String, <- Heq.
    rewrite Hx by (lia || apply delim_elems_tail).
    by rewrite elems_roundtrip by (done || lia).
  - apply json_wf_obj in Hwf as [Hcanon Hwf].
    pose proof (Forall_modus _ _ _ IH Hwf) as Hall.
    clear IH Hwf. destruct Hall as [|[k x] l Hx Hl].
    { intros [|fuel] rest Hlen Hrest; [simpl in Hlen; lia|]. reflexivity. }
    intros [|fuel] rest Hlen Hrest; [lia|]. simpl snd in Hx.
    rewrite stringify_obj in *. norm_app. norm_app_in Hlen.
    simpl in Hlen. rewrite !length_app in Hlen. simpl in Hlen.
    rewrite length_app in Hlen.
    rewrite quote_app, parse_value_obj.
    rewrite <- quote_app, parse_key_quote.
    rewrite Hx by (lia || apply delim_members_tail).
    rewrite members_roundtrip by (done || lia).
    by rewrite Hcanon.
Qed.

(** [JSON.parse(JSON.stringify(v))] gives [v] back. *)
Lemma parse_stringify (v : json) : json_wf v -> parse (stringify v) = Some v.
Proof.
  intros Hwf. unfold parse.
  rewrite <- (app_Empty (stringify v)) at 2.
  replace (EmptyString +:+ stringify v) with (stringify v +:+ EmptyString).
  - by rewrite (stringify_roundtrips v Hwf) by (lia || done).
  - rewrite app_Empty. induction (stringify v) as [|c t IH]; [done|].
    by rewrite app_String, IH.
Qed.

Lemma parse_empty : parse EmptyString = None.
Proof. reflexivity. Qed.

End JSONFacts.

(** ** The parser never runs out of fuel *)

Module ParserFacts.
Import JS JSON StringFacts.

Lemma skip_ws_length (s : string) : String.length (skip_ws s) <= String.length s.
Proof.
  induction s as [|c s IH]; simpl; [done|].
  destruct (is_ws c); simpl; lia.
Qed.

Lemma skip_ws_cons (s : string) (c : ascii) (t : string) :
  skip_ws s = String c t -> String.length t < String.length s.
Proof. intros H. pose proof (skip_ws_length s) as Hlen. rewrite H in Hlen. simpl in Hlen. lia. Qed.

Lemma cons_char_Some (c : ascii) (r : option (string * string)) (str rest : string) :
  cons_char c r = Some (str, rest) -> exists str', r = Some (str', rest).
Proof. destruct r as [[str' rest']|]; simpl; [|done]. intros [= _ <-]. eauto. Qed.

Lemma parse_string_body_length (n : nat) :
  forall s str rest,
    String.length s <= n ->
    parse_string_body s = Some (str, rest) ->
    String.length rest < String.length s.
Proof.
  induction n as [|n IH]; intros [|c s] str rest Hlen H; simpl in *; try done; try lia.
  destruct (N_of_ascii c =? 34)%N; [injection H as _ <-; lia|].
  destruct (N_of_ascii c =? 92)%N.
  - destruct s as [|e s]; [done|]. simpl in Hlen.
    destruct (simple_escape e).
    + apply cons_char_Some in H as [str' H]. apply IH in H; simpl; lia.
    + destruct (N_of_ascii e =? 117)%N; [|done].
      destruct s as [|h1 [|h2 [|h3 [|h4 s]]]]; try done.
      destruct (unicode_escape h1 h2 h3 h4); [|done]. simpl in Hlen.
      apply cons_char_Some in H as [str' H]. apply IH in H; simpl; lia.
  - destruct (N_of_ascii c <? 32)%N; [done|].
    apply cons_char_Some in H as [str' H]. apply IH in H; lia.
Qed.

Lemma parse_string_body_shorter (s str rest : string) :
  parse_string_body s = Some (str, rest) -> String.length rest < String.length s.
Proof. by apply (parse_string_body_length (String.length s)). Qed.

Lemma drop_prefix_length (p s rest : string) :
  drop_prefix p s = Some rest ->
  String.length rest + String.length p = String.length s.
Proof.
  revert s. induction p as [|a p IH]; intros [|b s]; simpl; try done.
  - intros [= <-]. simpl. lia.
  - intros [= <-]. simpl. lia.
  - destruct (Ascii.eqb a b); [|done]. intros H%IH. lia.
Qed.

Lemma literal_shorter (p : string) (v v' : json) (s rest : string) :
  p <> EmptyString ->
  literal p v s = Some (v', rest) -> String.length rest < String.length s.
Proof.
  unfold literal. destruct (drop_prefix p s) as [r|] eqn:H; [|done].
  intros Hp [= _ <-]. apply drop_prefix_length in H.
  destruct p; [done|]. simpl in H. lia.
Qed.

Lemma scan_digits_length (s : string) (acc n : N) (rest : string) :
  scan_digits s acc = (n, rest) -> String.length rest <= String.length s.
Proof.
  revert acc. induction s as [|c s IH]; intros acc; simpl.
  - intros [= _ <-]. done.
  - destruct (is_digit c).
    + intros H%IH. lia.
    + intros [= _ <-]. done.
Qed.

Lemma parse_int_shorter (s : string) (n : N) (rest : string) :
  parse_int s = Some (n, rest) -> String.length rest < String.length s.
Proof.
  unfold parse_int. destruct s as [|c s]; [done|].
  destruct (is_digit c) eqn:Hd; [|done].
  assert (forall m r, (if (N_of_ascii c =? 48)%N then (0%N, s)
                       else scan_digits (String c s) 0) = (m, r) ->
                      String.length r < String.length (String c s)) as Hscan.
  { intros m r. destruct (N_of_ascii c =? 48)%N.
    - intros [= _ <-]. simpl. lia.
    - simpl. rewrite Hd. intros H%scan_digits_length. lia. }
  destruct (if (N_of_ascii c =? 48)%N then _ else _) as [m r].
  specialize (Hscan m r eq_refl).
  destruct r as [|d r]; [by intros [= _ <-]|].
  destruct (_ || _)%bool; [done|]. by intros [= _ <-].
Qed.

Lemma parse_number_shorter (s : string) (z : Z) (rest : string) :
  parse_number s = Some (z, rest) -> String.length rest < String.length s.
Proof.
  unfold parse_number. destruct s as [|c s]; [done|].
  destruct (N_of_ascii c =? 45)%N.
  - destruct (parse_int s) as [[n r]|] eqn:H; [|done].
    intros [= _ <-]. apply parse_int_shorter in H. simpl. lia.
  - destruct (parse_int (String c s)) as [[n r]|] eqn:H; [|done].
    intros [= _ <-]. by apply parse_int_shorter in H.
Qed.

Lemma parse_key_shorter (s k rest : string) :
  parse_key s = Some (k, rest) -> String.length rest < String.length s.
Proof.
  unfold parse_key. destruct (skip_ws s) as [|c s1] eqn:Hs; [done|].
  apply skip_ws_cons in Hs.
  destruct (N_of_ascii c =? 34)%N; [|done].
  destruct (parse_string_body s1) as [[k' s2]|] eqn:Hbody; [|done].
  apply parse_string_body_shorter in Hbody.
  destruct (skip_ws s2) as [|c' s3] eqn:Hs2; [done|].
  apply skip_ws_cons in Hs2.
  destruct (N_of_ascii c' =? 58)%N; [|done].
  intros [= _ <-]. lia.
Qed.

(** Destructs, one after the other, what the matches in [H] look at. *)
Ltac break_matches H :=
  repeat match type of H with
    | context [match ?x with _ => _ end] =>
        lazymatch x with
        | context [match _ with _ => _ end] => fail
        | _ => destruct x eqn:?; try discriminate H
        end
    end.

Ltac shorter IHv IHe IHm :=
  repeat match goal with
    | H : skip_ws _ = String _ _ |- _ => apply skip_ws_cons in H
    | H : parse_string_body _ = Some _ |- _ => apply parse_string_body_shorter in H
    | H : parse_key _ = Some _ |- _ => apply parse_key_shorter in H
    | H : parse_number _ = Some _ |- _ => apply parse_number_shorter in H
    | H : literal _ _ _ = Some _ |- _ => apply literal_shorter in H; [|discriminate]
    | H : parse_value _ _ = Some _ |- _ => apply IHv in H
    | H : parse_elems _ _ = Some _ |- _ => apply IHe in H
    | H : parse_members _ _ = Some _ |- _ => apply IHm in H
    end.

(** Every successful call consumes at least one character. *)
Lemma parse_consumes (fuel : nat) :
  (forall s v rest,
      parse_value fuel s = Some (v, rest) -> String.length rest < String.length s) /\
  (forall s l rest,
      parse_elems fuel s = Some (l, rest) -> String.length rest < String.length s) /\
  (forall s l rest,
      parse_members fuel s = Some (l, rest) -> String.length rest < String.length s).
Proof.
  induction fuel as [|fuel (IHv & IHe & IHm)]; [done|].
  repeat split; intros s v rest H;
    cbn -[literal parse_number parse_key parse_string_body skip_ws obj_of_members] in H;
    break_matches H; simplify_eq; shorter IHv IHe IHm; simpl in *; lia.
Qed.

Ltac lengths :=
  repeat match goal with
    | H : skip_ws _ = String _ _ |- _ => apply skip_ws_cons in H
    | H : parse_key _ = Some _ |- _ => apply parse_key_shorter in H
    | H : parse_value _ _ = Some _ |- _ => apply (proj1 (parse_consumes _)) in H
    | H : parse_elems _ _ = Some _ |- _ =>
        apply (proj1 (proj2 (parse_consumes _))) in H
    | H : parse_members _ _ = Some _ |- _ =>
        apply (proj2 (proj2 (parse_consumes _))) in H
    end;
  simpl in *; lia.

(** With more fuel than the text is long, the amount of fuel makes no
    difference. *)
Lemma parse_fuel_irrelevant (fuel1 : nat) :
  forall fuel2,
    (forall s, String.length s < fuel1 -> String.length s < fuel2 ->
               parse_value fuel1 s = parse_value fuel2 s) /\
    (forall s, String.length s < fuel1 -> String.length s < fuel2 ->
               parse_elems fuel1 s = parse_elems fuel2 s) /\
    (forall s, String.length s < fuel1 -> String.length s < fuel2 ->
               parse_members fuel1 s = parse_members fuel2 s).
Proof.
  induction fuel1 as [|fuel1 IH]; intros [|fuel2];
    repeat split; intros s H1 H2; try lia.
  all: destruct (IH fuel2) as (IHv & IHe & IHm); clear IH.
  all: cbn -[literal parse_number parse_key parse_string_body skip_ws obj_of_members].
  all: repeat match goal with
    | IH : forall s, _ -> _ -> parse_value ?f s = _
      |- context [parse_value ?f ?t] => rewrite (IH t) by lengths
    | IH : forall s, _ -> _ -> parse_elems ?f s = _
      |- context [parse_elems ?f ?t] => rewrite (IH t) by lengths
    | IH : forall s, _ -> _ -> parse_members ?f s = _
      |- context [parse_members ?f ?t] => rewrite (IH t) by lengths
    | |- context [match ?x with _ => _ end] =>
        lazymatch x with
        | context [match _ with _ => _ end] => fail
        | _ => destruct x eqn:?; try reflexivity
        end
    end.
Qed.

(** [JSON.parse] gives the same result under any larger amount of fuel:
    the fuel it passes is enough for every text. *)
Lemma parse_enough_fuel (fuel : nat) (s : string) :
  String.length s < fuel ->
  parse_value fuel s = parse_value (S (String.length s)) s.
Proof. intros H. apply parse_fuel_irrelevant; lia. Qed.

End ParserFacts.

(** ** The session store *)

Module AuthContextSpec.
Import JS AuthContext.

Section Generic.
Context {platform : Platform} {auth : AuthService}.

Lemma login_throws (email pass : string) (e : Error) (w : World) :
  loginUser email pass = Throw e ->
  login email pass w
  = (Throw e, mkWorld (user w) false (Some (message e)) (localStorage w) (console w)).
Proof.
  intros H. unfold login, try_finally, try_catch, await, mbind, M_bind; simpl.
  by rewrite H.
Qed.

Lemma login_returns (email pass : string) (record : value) (w : World) :
  loginUser email pass = Normal record ->
  login email pass w
  = (Normal record,
     mkWorld record false None
       (<["user" := JSON_stringify record]> (localStorage w)) (console w)).
Proof.
  intros H. unfold login, try_finally, try_catch, await, mbind, M_bind; simpl.
  by rewrite H.
Qed.

Lemma signup_returns (name email pass avatar : string) (v : value) (w : World) :
  createUser {| name := name; email := email; password := pass;
                role := "user"; avatar := avatar |} = Normal v ->
  signup name email pass avatar w
  = (Normal (), mkWorld (user w) false None (localStorage w) (console w)).
Proof.
  intros H. unfold signup, try_finally, try_catch, await, mbind, M_bind; simpl.
  by rewrite H.
Qed.

Lemma signup_throws (name email pass avatar : string) (e : Error) (w : World) :
  createUser {| name := name; email := email; password := pass;
                role := "user"; avatar := avatar |} = Throw e ->
  signup name email pass avatar w
  = (Throw e, mkWorld (user w) false (Some (message e)) (localStorage w) (console w)).
Proof.
  intros H. unfold signup, try_finally, try_catch, await, mbind, M_bind; simpl.
  by rewrite H.
Qed.

(** The three ways the restore effect can go. *)
Lemma restore_skips (w : World) :
  string_truthy (localStorage w !! "user") = false ->
  restore w
  = (Normal (), mkWorld (user w) false (error w) (localStorage w) (console w)).
Proof.
  intros H. unfold restore, try_finally, try_catch, localStorage_getItem,
    mbind, M_bind; simpl.
  by rewrite H.
Qed.

Lemma restore_parses (w : World) (text : string) (v : value) :
  localStorage w !! "user" = Some text ->
  JSON_parse text = Normal v ->
  restore w
  = (Normal (), mkWorld v false (error w) (localStorage w) (console w)).
Proof.
  intros Hget Hparse.
  assert (text <> EmptyString) as Hne.
  { intros ->. pose proof JSON_parse_empty as He. by rewrite Hparse in He. }
  unfold restore, try_finally, try_catch, localStorage_getItem, await,
    mbind, M_bind; simpl.
  rewrite Hget; simpl.
  destruct (String.eqb_spec text EmptyString) as [|_]; [done|]; simpl.
  by rewrite Hparse.
Qed.

Lemma restore_discards (w : World) (text : string) (e : Error) :
  localStorage w !! "user" = Some text ->
  text <> EmptyString ->
  JSON_parse text = Throw e ->
  restore w
  = (Normal (),
     mkWorld (user w) false (error w) (delete "user" (localStorage w))
       (console w ++ [("Failed to parse user from local storage", e)])).
Proof.
  intros Hget Hne Hparse.
  unfold restore, try_finally, try_catch, localStorage_getItem, await,
    mbind, M_bind; simpl.
  rewrite Hget; simpl.
  destruct (String.eqb_spec text EmptyString) as [|_]; [done|]; simpl.
  by rewrite Hparse.
Qed.

(** C1. When the backend call of [login] fails with an error, [login]
    throws that same error, [error] holds its message, and [user] and
    [localStorage] are what they were before the call. *)
Theorem login_failure (email pass : string) (e : Error) (w : World) :
  loginUser email pass = Throw e ->
  let r := login email pass w in
  r.1 = Throw e /\
  error r.2 = Some (message e) /\
  user r.2 = user w /\
  localStorage r.2 = localStorage w.
Proof. intros H. simpl. by rewrite (login_throws _ _ _ _ H). Qed.

(** C4. After the restore effect, after [login] and after [signup],
    however each of them ends, [loading] is false. *)
Theorem loading_false_after (w : World) :
  loading (restore w).2 = false /\
  (forall email pass, loading (login email pass w).2 = false) /\
  (forall name email pass avatar,
      loading (signup name email pass avatar w).2 = false).
Proof.
  split; [|split].
  - destruct (localStorage w !! "user") as [text|] eqn:Hget.
    + destruct (String.eqb_spec text EmptyString) as [->|Hne].
      * by rewrite restore_skips by (by rewrite Hget).
      * destruct (JSON_parse text) as [v|e] eqn:Hparse.
        -- by rewrite (restore_parses _ _ _ Hget Hparse).
        -- by rewrite (restore_discards _ _ _ Hget Hne Hparse).
    + by rewrite restore_skips by (by rewrite Hget).
  - intros email pass. destruct (loginUser email pass) as [v|e] eqn:H.
    + by rewrite (login_returns _ _ _ _ H).
    + by rewrite (login_throws _ _ _ _ H).
  - intros name email pass avatar.
    destruct (createUser {| name := name; email := email; password := pass;
                            role := "user"; avatar := avatar |}) as [v|e] eqn:H.
    + by rewrite (signup_returns _ _ _ _ _ _ H).
    + by rewrite (signup_throws _ _ _ _ _ _ H).
Qed.

(** C5. When the backend call of [signup] succeeds, [signup] returns
    normally and [user] and [localStorage] are what they were before
    the call. *)
Theorem signup_success_frame (name email pass avatar : string) (v : value)
    (w : World) :
  createUser {| name := name; email := email; password := pass;
                role := "user"; avatar := avatar |} = Normal v ->
  let r := signup name email pass avatar w in
  r.1 = Normal () /\ user r.2 = user w /\ localStorage r.2 = localStorage w.
Proof. intros H. simpl. by rewrite (signup_returns _ _ _ _ _ _ H). Qed.
(** C3, as the code has it.  At start-up, when the stored entry is
    present, is not the empty string, and [JSON.parse] throws on it, the
    restore effect ends normally, deletes the entry, leaves [user] at
    [null] and [loading] false.  When the entry is absent or is the empty
    string, the effect ends normally with [user] at [null], [loading]
    false and [localStorage] as it was. *)
Theorem restore_undecodable_or_absent (storage : gmap string string) :
  let r := restore (mount storage) in
  (forall text,
      storage !! "user" = Some text -> text <> EmptyString ->
      is_Throw (JSON_parse text) ->
      r.1 = Normal () /\ user r.2 = null /\ loading r.2 = false /\
      localStorage r.2 !! "user" = None) /\
  (storage !! "user" = None \/ storage !! "user" = Some EmptyString ->
   r.1 = Normal () /\ user r.2 = null /\ loading r.2 = false /\
   localStorage r.2 = storage).
Proof.
  simpl. split.
  - intros text Hget Hne Hthrow.
    destruct (JSON_parse text) as [v|e] eqn:Hparse; [done|].
    rewrite (restore_discards (mount storage) text e Hget Hne Hparse). simpl.
    by rewrite lookup_delete_eq.
  - intros Hget. rewrite restore_skips; [done|].
    simpl. by destruct Hget as [-> | ->].
Qed.

(** C9. Whatever value [JSON.parse] gives for the stored text, an
    object or not, the restore effect puts that value in [user] and keeps
    the entry; and the effect deletes the entry only when [JSON.parse]
    throws on it. *)
Theorem restore_no_shape_validation (storage : gmap string string)
    (text : string) :
  storage !! "user" = Some text ->
  let r := restore (mount storage) in
  (forall v, JSON_parse text = Normal v ->
             r.1 = Normal () /\ user r.2 = v /\ localStorage r.2 = storage) /\
  (localStorage r.2 !! "user" = None -> is_Throw (JSON_parse text)).
Proof.
  intros Hget. simpl. split.
  - intros v Hparse.
    by rewrite (restore_parses (mount storage) text v Hget Hparse).
  - destruct (JSON_parse text) as [v|e] eqn:Hparse; [|done].
    rewrite (restore_parses (mount storage) text v Hget Hparse). simpl.
    by rewrite Hget.
Qed.
End Generic.

(** *** On the platform of the modelled JSON values *)

Lemma stringify_not_empty (v : json) : JSON.stringify v <> EmptyString.
Proof. destruct (JSONFacts.stringify_head v) as (c & t & -> & _). done. Qed.

Lemma JSON_parse_stringify (v : json) :
  JSON.json_wf v -> JSON_parse (JSON_stringify v) = Normal v.
Proof. intros Hwf. simpl. by rewrite JSONFacts.parse_stringify. Qed.

(** C2. When the backend call of [login] succeeds with a record, [login]
    returns that record, [user] is that record, and the stored entry is
    the record's JSON text, which [JSON.parse] decodes to a value equal
    to [user]; a provider mounted on that storage restores the same
    [user]. *)
Theorem login_success (auth : @AuthService json_platform) (email pass : string)
    (record : json) (w : World) :
  loginUser email pass = Normal record ->
  JSON.json_wf record ->
  let r := login email pass w in
  r.1 = Normal record /\
  user r.2 = record /\
  (exists text,
      localStorage r.2 !! "user" = Some text /\
      text = JSON.stringify record /\
      JSON_parse text = Normal (user r.2)) /\
  user (restore (mount (localStorage r.2))).2 = user r.2.
Proof.
  intros Hlogin Hwf. simpl. rewrite (login_returns _ _ _ _ Hlogin). simpl.
  assert (<["user" := JSON.stringify record]> (localStorage w) !! "user"
          = Some (JSON.stringify record)) as Hget by apply lookup_insert_eq.
  repeat split.
  - exists (JSON.stringify record). repeat split; [done|].
    by apply JSON_parse_stringify.
  - by rewrite (restore_parses (platform := json_platform) (mount _) _ record
                 Hget (JSON_parse_stringify _ Hwf)).
Qed.

(** C3 as stated fails on an entry holding the empty string: the entry
    is present and [JSON.parse] throws on it, yet the restore effect
    never parses it and leaves it in place. *)
Lemma restore_keeps_empty_entry :
  let storage : gmap string string := {[ "user" := EmptyString ]} in
  let r := restore (mount storage) in
  storage !! "user" = Some EmptyString /\
  is_Throw (JSON_parse EmptyString) /\
  r.1 = Normal () /\
  localStorage r.2 !! "user" = Some EmptyString.
Proof. by vm_compute. Qed.

(** *** Instances at concrete inputs *)

Lemma login_failure_witness :
  let w := mount (platform := json_platform) {[ "user" := "7" ]} in
  let e := new_Error "Invalid credentials" in
  let r := login (auth := sample_backend) "ada@example.org" "guess" w in
  r.1 = Throw e /\ error r.2 = Some (message e) /\
  user r.2 = user w /\ localStorage r.2 = localStorage w.
Proof.
  apply (login_failure (auth := sample_backend) "ada@example.org" "guess").
  reflexivity.
Defined.

Lemma signup_success_frame_witness :
  let w := mount (platform := json_platform) {[ "user" := "7" ]} in
  let r := signup (auth := sample_backend) "Ada" "ada@example.org" "s3cret" "a.png" w in
  r.1 = Normal () /\ user r.2 = user w /\ localStorage r.2 = localStorage w.
Proof.
  apply (signup_success_frame (auth := sample_backend)
           "Ada" "ada@example.org" "s3cret" "a.png" JNull).
  reflexivity.
Defined.

Lemma login_success_witness :
  let w := mount (platform := json_platform) ∅ in
  let r := login (auth := sample_backend) "ada@example.org" "s3cret" w in
  r.1 = Normal sample_user /\
  user r.2 = sample_user /\
  (exists text,
      localStorage r.2 !! "user" = Some text /\
      text = JSON.stringify sample_user /\
      JSON_parse text = Normal (user r.2)) /\
  user (restore (mount (localStorage r.2))).2 = user r.2.
Proof.
  apply (login_success sample_backend "ada@example.org" "s3cret" sample_user).
  - reflexivity.
  - simpl. repeat split; (reflexivity || lia).
Defined.

Lemma restore_undecodable_witness :
  let r := restore (mount (platform := json_platform) {[ "user" := "{oops" ]}) in
  r.1 = Normal () /\ user r.2 = JNull /\ loading r.2 = false /\
  localStorage r.2 !! "user" = None.
Proof.
  apply (proj1 (restore_undecodable_or_absent
                  (platform := json_platform) {[ "user" := "{oops" ]})
           "{oops").
  - reflexivity.
  - discriminate.
  - vm_compute. exact I.
Defined.

Lemma restore_no_shape_validation_witness :
  let r := restore (mount (platform := json_platform) {[ "user" := "42" ]}) in
  r.1 = Normal () /\ user r.2 = JNum 42 /\
  localStorage r.2 = {[ "user" := "42" ]}.
Proof.
  refine (proj1 (restore_no_shape_validation
                   (platform := json_platform) {[ "user" := "42" ]} "42" _)
            (JNum 42) _);
    reflexivity.
Defined.

(** A stored number, array or string literal becomes [user] as it is. *)
Example restore_accepts_non_objects :
  user (restore (mount (platform := json_platform) {[ "user" := "42" ]})).2
  = JNum 42 /\
  user (restore (mount (platform := json_platform) {[ "user" := "[1,true]" ]})).2
  = JArr [JNum 1; JBool true] /\
  user (restore (mount (platform := json_platform)
                   {[ "user" := JSON.stringify (JStr "ada") ]})).2
  = JStr "ada".
Proof. by vm_compute. Qed.

End AuthContextSpec.

(** ** The archive upload client *)

Module ArchiveServiceSpec.
Import JS ArchiveService StringFacts.

Lemma startsWith_spec (s p : string) :
  startsWith s p = true <-> exists rest, s = p +:+ rest.
Proof.
  unfold startsWith. revert s.
  induction p as [|a p IH]; intros [|b s]; simpl.
  - split; [by exists EmptyString | done].
  - split; [by exists (String b s) | done].
  - split; [done|]. intros [rest Hrest]. by rewrite app_String in Hrest.
  - destruct (ascii_dec a b) as [->|Hne].
    + rewrite IH. split; intros [rest Hrest]; exists rest.
      * by rewrite app_String, <- Hrest.
      * rewrite app_String in Hrest. by injection Hrest.
    + split; [done|]. intros [rest Hrest].
      rewrite app_String in Hrest. by injection Hrest as -> _.
Qed.

Lemma startsWith_false (s p : string) :
  (forall rest, s <> p +:+ rest) -> startsWith s p = false.
Proof.
  intros H. destruct (startsWith s p) eqn:E; [|done].
  apply startsWith_spec in E as [rest ->]. by destruct (H rest).
Qed.

(** C7. A file whose declared type is [application/pdf] is classified
    "texts", one whose type starts with [video/] "movies", one whose type
    starts with [image/] "image", and a file of any other type "texts". *)
Theorem getMediaType_classifies (file : File) :
  (file_type file = "application/pdf" ->
   MediaType_string (getMediaType file) = "texts") /\
  (forall rest, file_type file = "video/" +:+ rest ->
                MediaType_string (getMediaType file) = "movies") /\
  (forall rest, file_type file = "image/" +:+ rest ->
                MediaType_string (getMediaType file) = "image") /\
  (file_type file <> "application/pdf" ->
   (forall rest, file_type file <> "video/" +:+ rest) ->
   (forall rest, file_type file <> "image/" +:+ rest) ->
   MediaType_string (getMediaType file) = "texts").
Proof.
  unfold getMediaType. repeat split.
  - by intros ->.
  - intros rest Heq.
    by rewrite (proj2 (startsWith_spec _ "video/") (ex_intro _ rest Heq)).
  - intros rest Heq.
    rewrite (proj2 (startsWith_spec _ "image/") (ex_intro _ rest Heq)).
    by rewrite Heq.
  - intros Hpdf Hvideo Himage.
    rewrite (startsWith_false _ _ Hvideo), (startsWith_false _ _ Himage).
    by destruct (String.eqb_spec (file_type file) "application/pdf").
Qed.

Lemma getMediaType_classifies_witness :
  MediaType_string (getMediaType {| file_name := "a.pdf"; file_type := "application/pdf" |})
  = "texts" /\
  MediaType_string (getMediaType {| file_name := "a.mp4"; file_type := "video/mp4" |})
  = "movies" /\
  MediaType_string (getMediaType {| file_name := "a.png"; file_type := "image/png" |})
  = "image" /\
  MediaType_string (getMediaType {| file_name := "a.txt"; file_type := "text/plain" |})
  = "texts".
Proof.
  split; [|split; [|split]].
  - apply (proj1 (getMediaType_classifies
                    {| file_name := "a.pdf"; file_type := "application/pdf" |})).
    reflexivity.
  - apply (proj1 (proj2 (getMediaType_classifies
                    {| file_name := "a.mp4"; file_type := "video/mp4" |})) "mp4").
    reflexivity.
  - apply (proj1 (proj2 (proj2 (getMediaType_classifies
                    {| file_name := "a.png"; file_type := "image/png" |}))) "png").
    reflexivity.
  - apply (proj2 (proj2 (proj2 (getMediaType_classifies
                    {| file_name := "a.txt"; file_type := "text/plain" |})))).
    + discriminate.
    + intros rest. discriminate.
    + intros rest. discriminate.
Defined.

(** An unset variable gives the empty credential. *)
Lemma env_or_empty_unset (env : gmap string string) (name : string) :
  env !! name = None -> env_or_empty env name = EmptyString.
Proof. intros H. unfold env_or_empty. by rewrite H. Qed.

Lemma env_or_empty_set (env : gmap string string) (name v : string) :
  env !! name = Some v -> env_or_empty env name = v.
Proof.
  intros H. unfold env_or_empty. rewrite H. simpl.
  by destruct (String.eqb_spec v EmptyString).
Qed.

Section Upload.
Variable encodeURIComponent : string -> string.
Variable env : gmap string string.

Lemma on_event_not_listening (file : File) (itemName : string) (u : Upload)
    (events : list XhrEvent) :
  listening u = false ->
  fold_left (on_event encodeURIComponent file itemName) events u = u.
Proof.
  intros H. induction events as [|ev events IH]; [done|].
  simpl. unfold on_event at 2. by rewrite H.
Qed.

(** C8. When either credential is the empty string, [uploadFile] rejects
    with the configuration error at once: no call is made on the
    transport, no handler waits for it, and whatever is delivered
    afterwards changes nothing. *)
Theorem uploadFile_unconfigured (file : File) (itemName : string) :
  ACCESS_KEY env = EmptyString \/ SECRET_KEY env = EmptyString ->
  let u := uploadFile encodeURIComponent env file itemName in
  promise u = Rejected (new_Error not_configured) /\
  transport u = [] /\
  listening u = false /\
  forall events,
    fold_left (on_event encodeURIComponent file itemName) events u = u.
Proof.
  intros H. simpl.
  assert (uploadFile encodeURIComponent env file itemName
          = mkUpload (Rejected (new_Error not_configured)) [] [not_configured] false)
    as ->.
  { unfold uploadFile. destruct H as [-> | ->]; [done|].
    by rewrite orb_true_r. }
  repeat split. intros events. by apply on_event_not_listening.
Qed.

(** With both credentials set, the request is opened and sent. *)
Lemma uploadFile_configured (file : File) (itemName : string) :
  ACCESS_KEY env <> EmptyString -> SECRET_KEY env <> EmptyString ->
  let u := uploadFile encodeURIComponent env file itemName in
  promise u = Pending /\
  head (transport u)
  = Some (xhr_open "PUT"
            ("https://s3.us.archive.org/" +:+ itemName +:+ "/"
             +:+ encodeURIComponent (file_name file)) true) /\
  last (transport u) = Some (xhr_send file).
Proof.
  intros Ha Hs. unfold uploadFile. simpl.
  destruct (String.eqb_spec (ACCESS_KEY env) EmptyString); [done|].
  destruct (String.eqb_spec (SECRET_KEY env) EmptyString); [done|].
  done.
Qed.
End Upload.

Lemma uploadFile_unconfigured_witness :
  let env : gmap string string := {[ "ARCHIVE_ACCESS_KEY" := "key" ]} in
  let file := {| file_name := "a.pdf"; file_type := "application/pdf" |} in
  let u := uploadFile id env file "item" in
  promise u = Rejected (new_Error not_configured) /\
  transport u = [] /\
  listening u = false /\
  forall events, fold_left (on_event id file "item") events u = u.
Proof.
  apply (uploadFile_unconfigured id {[ "ARCHIVE_ACCESS_KEY" := "key" ]}).
  right. reflexivity.
Defined.

End ArchiveServiceSpec.

(** ** Own properties *)

Module ObjectFacts.
Import JS.

Section Props.
Context {A : Type}.
Implicit Types (k : string) (v : A) (l : list (string * A)).

Lemma obj_get_replace_eq k v l :
  obj_has k l = true -> obj_get k (obj_replace k v l) = Some v.
Proof.
  unfold obj_has. induction l as [|[k' v'] l IH]; simpl; [done|].
  destruct (String.eqb_spec k k') as [->|Hne]; simpl.
  - by rewrite String.eqb_refl.
  - intros H. destruct (String.eqb_spec k k'); [done|]. by apply IH.
Qed.

Lemma obj_get_replace_ne k k' v l :
  k <> k' -> obj_get k (obj_replace k' v l) = obj_get k l.
Proof.
  intros Hne. induction l as [|[k'' v''] l IH]; simpl; [done|].
  destruct (String.eqb_spec k' k'') as [->|Hne']; simpl.
  - by destruct (String.eqb_spec k k'').
  - by rewrite IH.
Qed.

Lemma obj_get_insert_index_eq i k v l :
  obj_get k l = None -> obj_get k (obj_insert_index i k v l) = Some v.
Proof.
  induction l as [|[k' v'] l IH]; simpl.
  - by rewrite String.eqb_refl.
  - destruct (String.eqb_spec k k') as [->|Hne]; [done|]. intros Hl.
    destruct (index_of_key k') as [j|]; [destruct (j <? i)%N|]; simpl;
      rewrite ?String.eqb_refl; try done.
    destruct (String.eqb_spec k k'); [done|]. by apply IH.
Qed.

Lemma obj_get_insert_index_ne i k k' v l :
  k <> k' -> obj_get k (obj_insert_index i k' v l) = obj_get k l.
Proof.
  intros Hne. induction l as [|[k'' v''] l IH]; simpl.
  - by destruct (String.eqb_spec k k').
  - destruct (index_of_key k'') as [j|]; [destruct (j <? i)%N|]; simpl;
      try (by destruct (String.eqb_spec k k')).
    by rewrite IH.
Qed.

Lemma obj_get_snoc k k' v l :
  obj_get k (l ++ [(k', v)])
  = match obj_get k l with
    | Some x => Some x
    | None => if String.eqb k k' then Some v else None
    end.
Proof.
  induction l as [|[k'' v''] l IH]; simpl; [done|].
  by destruct (String.eqb k k'').
Qed.

(** Reading a property that was just defined gives the new value. *)
Lemma obj_get_set_eq k v l : obj_get k (obj_set k v l) = Some v.
Proof.
  unfold obj_set. destruct (obj_has k l) eqn:Hhas.
  - by apply obj_get_replace_eq.
  - unfold obj_has in Hhas. destruct (obj_get k l) eqn:Hget; [done|].
    destruct (index_of_key k).
    + by apply obj_get_insert_index_eq.
    + by rewrite obj_get_snoc, Hget, String.eqb_refl.
Qed.

(** Defining a property leaves every other property as it was. *)
Lemma obj_get_set_ne k k' v l :
  k <> k' -> obj_get k (obj_set k' v l) = obj_get k l.
Proof.
  intros Hne. unfold obj_set. destruct (obj_has k' l).
  - by apply obj_get_replace_ne.
  - destruct (index_of_key k').
    + by apply obj_get_insert_index_ne.
    + rewrite obj_get_snoc. destruct (obj_get k l); [done|].
      by destruct (String.eqb_spec k k').
Qed.
End Props.

Lemma map_throwing_Forall2 {A B} (f : A -> Completion B) (xs : list A)
    (ys : list B) :
  map_throwing f xs = Normal ys -> Forall2 (fun x y => f x = Normal y) xs ys.
Proof.
  revert ys. induction xs as [|x xs IH]; intros ys; simpl.
  - intros [= <-]. constructor.
  - unfold mbind, Completion_bind.
    destruct (f x) as [y|e] eqn:Hx; [|done].
    destruct (map_throwing f xs) as [ys'|e]; [|done].
    intros [= <-]. constructor; [done | by apply IH].
Qed.

End ObjectFacts.

(** ** The resource list client *)

Module ResourceServiceSpec.
Import JS ResourceService ObjectFacts.

(** What a successful call has gone through: the response was [ok], its
    body was read, [data.data] was read, and [data.data || []] was an
    array, each element of which was rebuilt without a throw. *)
Lemma getResources_Normal (fetched : Completion Response) (out : list json) :
  getResources fetched = Normal out ->
  exists response data data_data records,
    fetched = Normal response /\
    ok response = true /\
    json_body response = Normal data /\
    Get data "data" = Normal data_data /\
    (if truthy data_data then data_data else Some (JArr [])) = Some (JArr records) /\
    Forall2
      (fun resource returned =>
         exists id text,
           Get resource "id" = Normal id /\
           String_ id = Normal text /\
           returned = JObj (obj_set "id" (JStr text) (own_props resource)))
      records out.
Proof.
  unfold getResources, mbind, Completion_bind.
  destruct fetched as [response|e]; [|done].
  destruct (ok response) eqn:Hok; simpl; [|done].
  destruct (json_body response) as [data|e] eqn:Hbody; [|done].
  destruct (Get data "data") as [data_data|e] eqn:Hdata; [|done].
  destruct (if truthy data_data then data_data else Some (JArr []))
    as [[ | | | | records | ]|] eqn:Hres; try done.
  intros Hmap. exists response, data, data_data, records.
  repeat split; try done.
  apply map_throwing_Forall2 in Hmap.
  eapply Forall2_impl; [exact Hmap|]. intros resource returned. simpl.
  destruct (Get resource "id") as [id|e] eqn:Hid; [|done].
  destruct (String_ id) as [text|e] eqn:Htext; [|done].
  intros [= <-]. exists id, text. by repeat split.
Qed.

(** C6. For a response body whose numbers are safe integers: in every
    list that [getResources] returns, each record stands at the place of
    the record received, and its [id] is a string: the text [String(...)]
    gives for the [id] received, number or string. *)
Theorem getResources_ids_textual (fetched : Completion Response)
    (out : list json) :
  body_wf fetched ->
  getResources fetched = Normal out ->
  exists response data data_data records,
    fetched = Normal response /\
    json_body response = Normal data /\
    Get data "data" = Normal data_data /\
    (if truthy data_data then data_data else Some (JArr [])) = Some (JArr records) /\
    Forall2
      (fun resource returned =>
         exists id text,
           Get resource "id" = Normal id /\
           String_ id = Normal text /\
           Get returned "id" = Normal (Some (JStr text)))
      records out.
Proof.
  intros _ H. apply getResources_Normal in H
    as (response & data & data_data & records & -> & _ & Hbody & Hdata & Hres & Hall).
  exists response, data, data_data, records. repeat split; try done.
  eapply Forall2_impl; [exact Hall|]. intros resource returned.
  intros (id & text & Hid & Htext & ->). exists id, text.
  repeat split; try done. simpl. by rewrite obj_get_set_eq.
Qed.

Lemma getResources_array (response : Response) (data : json)
    (records : list json) :
  ok response = true ->
  json_body response = Normal data ->
  Get data "data" = Normal (Some (JArr records)) ->
  getResources (Normal response)
  = map_throwing
      (fun resource =>
         id ← Get resource "id";
         text ← String_ id;
         Normal (JObj (obj_set "id" (JStr text) (own_props resource))))
      records.
Proof.
  intros Hok Hbody Hdata. unfold getResources.
  unfold mbind at 1 2 3, Completion_bind at 1 2 3.
  by rewrite Hok, Hbody, Hdata.
Qed.

Lemma map_throwing_total {A B} (f : A -> Completion B) (xs : list A) :
  Forall (fun x => exists y, f x = Normal y) xs ->
  exists ys, map_throwing f xs = Normal ys.
Proof.
  induction 1 as [|x xs [y Hy] _ [ys IH]]; [by exists []|].
  exists (y :: ys). simpl. unfold mbind, Completion_bind. by rewrite Hy, IH.
Qed.

(** C10, as the code has it.  For an [ok] response whose body was read,
    with safe integers for numbers, and whose [data] is an array:
    [getResources] returns a list exactly when every record has an [id]
    that can be read and turned into a string; each record of the list
    it returns has, under every key other than [id], exactly what the
    record received has under that key (nothing added, nothing dropped,
    nothing changed), and under [id] the text of the [id] received.  A
    body that is not [null] and has no [data] field gives the empty list,
    not a throw. *)
Theorem getResources_preserves_fields (response : Response) (data : json) :
  ok response = true ->
  json_body response = Normal data ->
  JSON.json_wf data ->
  (forall records,
      Get data "data" = Normal (Some (JArr records)) ->
      ((exists out, getResources (Normal response) = Normal out) <->
       Forall
         (fun resource =>
            exists id text,
              Get resource "id" = Normal id /\ String_ id = Normal text)
         records) /\
      (forall out,
          getResources (Normal response) = Normal out ->
          Forall2
            (fun resource returned =>
               exists fields id text,
                 returned = JObj fields /\
                 Get resource "id" = Normal id /\
                 String_ id = Normal text /\
                 obj_get "id" fields = Some (JStr text) /\
                 forall k, k <> "id" ->
                           obj_get k fields = obj_get k (own_props resource))
            records out)) /\
  (data <> JNull ->
   obj_get "data" (own_props data) = None ->
   getResources (Normal response) = Normal []).
Proof.
  intros Hok Hbody _. split.
  - intros records Hdata.
    rewrite (getResources_array response data records Hok Hbody Hdata).
    split; [split|].
    + intros [out Hout]. apply map_throwing_Forall2 in Hout. clear Hdata.
      induction Hout as [|resource returned records out Hx _ IH];
        [by constructor|].
      constructor; [|done].
      unfold mbind, Completion_bind in Hx.
      destruct (Get resource "id") as [id|e] eqn:Hid; [|done].
      destruct (String_ id) as [text|e] eqn:Htext; [|done]. by exists id, text.
    + intros Hall. apply map_throwing_total.
      eapply Forall_impl; [exact Hall|]. intros resource (id & text & Hid & Htext).
      eexists. unfold mbind, Completion_bind. by rewrite Hid, Htext.
    + intros out Hout. apply map_throwing_Forall2 in Hout.
      eapply Forall2_impl; [exact Hout|]. intros resource returned Hx.
      unfold mbind, Completion_bind in Hx.
      destruct (Get resource "id") as [id|e] eqn:Hid; [|done].
      destruct (String_ id) as [text|e] eqn:Htext; [|done].
      injection Hx as <-. eexists _, id, text. repeat split; try done.
      * by rewrite obj_get_set_eq.
      * intros k Hk. by rewrite obj_get_set_ne.
  - intros Hnull Hdata. unfold getResources, mbind, Completion_bind.
    rewrite Hok, Hbody. unfold Get.
    destruct data; try done; simpl in *; by rewrite Hdata.
Qed.

(** C10 as stated fails on a body that is [null]: it has no [data]
    field, yet reading [data.data] throws and [getResources] fails. *)
Lemma getResources_null_body_throws :
  let response := {| ok := true; json_body := Normal JNull |} in
  obj_get "data" (own_props JNull) = None /\
  getResources (Normal response) = Throw TypeError.
Proof. by split. Qed.

Lemma getResources_ids_textual_witness :
  let out :=
    [ JObj [("id", JStr "1"); ("title", JStr "Algebra"); ("pdf_link", JStr "a.pdf")];
      JObj [("title", JStr "Optics"); ("id", JStr "2"); ("video_link", JNull)] ] in
  getResources (Normal sample_response) = Normal out /\
  exists response data data_data records,
    Normal sample_response = Normal response /\
    json_body response = Normal data /\
    Get data "data" = Normal data_data /\
    (if truthy data_data then data_data else Some (JArr [])) = Some (JArr records) /\
    Forall2
      (fun resource returned =>
         exists id text,
           Get resource "id" = Normal id /\
           String_ id = Normal text /\
           Get returned "id" = Normal (Some (JStr text)))
      records out.
Proof.
  split; [reflexivity|].
  apply (getResources_ids_textual (Normal sample_response)).
  - simpl. repeat split; (reflexivity || lia).
  - reflexivity.
Defined.

(** Identifiers received as the number 1 and the string 2 both come
    back as strings. *)
Example getResources_mixed_ids :
  exists first second,
    getResources (Normal sample_response) = Normal [first; second] /\
    Get first "id" = Normal (Some (JStr "1")) /\
    Get second "id" = Normal (Some (JStr "2")).
Proof. by eexists _, _. Qed.

Lemma getResources_preserves_fields_witness :
  getResources (Normal sample_response) = Normal sample_listed /\
  Forall2
    (fun resource returned =>
       exists fields id text,
         returned = JObj fields /\
         Get resource "id" = Normal id /\
         String_ id = Normal text /\
         obj_get "id" fields = Some (JStr text) /\
         forall k, k <> "id" ->
                   obj_get k fields = obj_get k (own_props resource))
    sample_records sample_listed.
Proof.
  split; [reflexivity|].
  refine (proj2 (proj1 (getResources_preserves_fields sample_response
                          (JObj [("data", JArr sample_records)]) _ _ _)
                   sample_records _)
            sample_listed _);
    try reflexivity.
  simpl. repeat split; (reflexivity || lia).
Defined.

(** A body that is an object without [data] gives the empty list. *)
Example getResources_no_data :
  getResources (Normal {| ok := true; json_body := Normal (JObj [("status", JStr "ok")]) |})
  = Normal [].
Proof. reflexivity. Qed.

End ResourceServiceSpec.

(** ** The session store: further properties *)

Module SessionSpec.
Import JS AuthContext AuthContextSpec.

Section Generic.
Context {platform : Platform} {auth : AuthService}.

Lemma logout_eq (w : World) :
  logout w
  = (Normal (),
     mkWorld null (loading w) (error w) (delete "user" (localStorage w)) (console w)).
Proof. reflexivity. Qed.

Lemma updateCurrentUser_eq (updatedUser : value) (w : World) :
  updateCurrentUser updatedUser w
  = (Normal (),
     mkWorld updatedUser (loading w) (error w)
       (<["user" := JSON_stringify updatedUser]> (localStorage w)) (console w)).
Proof. reflexivity. Qed.

(** The restore effect goes one of three ways. *)
Lemma restore_cases (w : World) :
  (string_truthy (localStorage w !! "user") = false /\
   restore w
   = (Normal (), mkWorld (user w) false (error w) (localStorage w) (console w))) \/
  (exists text v,
      localStorage w !! "user" = Some text /\ JSON_parse text = Normal v /\
      restore w
      = (Normal (), mkWorld v false (error w) (localStorage w) (console w))) \/
  (exists text e,
      localStorage w !! "user" = Some text /\ JSON_parse text = Throw e /\
      restore w
      = (Normal (),
         mkWorld (user w) false (error w) (delete "user" (localStorage w))
           (console w ++ [("Failed to parse user from local storage", e)]))).
Proof.
  destruct (localStorage w !! "user") as [text|] eqn:Hget.
  - destruct (String.eqb_spec text EmptyString) as [->|Hne].
    + left. split; [done|]. apply restore_skips. by rewrite Hget.
    + destruct (JSON_parse text) as [v|e] eqn:Hparse.
      * right; left. exists text, v. eauto using restore_parses.
      * right; right. exists text, e. eauto using restore_discards.
  - left. split; [done|]. apply restore_skips. by rewrite Hget.
Qed.

(** X1. From any state, [logout] ends normally with [user] at [null] and
    no stored entry, leaves [loading] and [error] alone, and a provider
    mounted afterwards restores [null]. *)
Theorem logout_clears (w : World) :
  let r := logout w in
  r.1 = Normal () /\
  user r.2 = null /\
  localStorage r.2 !! "user" = None /\
  loading r.2 = loading w /\ error r.2 = error w /\
  user (restore (mount (localStorage r.2))).2 = null.
Proof.
  cbv zeta. rewrite logout_eq. simpl.
  assert (delete "user" (localStorage w) !! "user" = None) as Hget
    by apply lookup_delete_eq.
  repeat split; try done.
  rewrite restore_skips; [done|]. simpl. by rewrite Hget.
Qed.

(** X2. No operation of the provider reads or writes an entry of
    [localStorage] other than [user]: under any other key the storage is
    after the operation what it was before. *)
Theorem other_entries_untouched (w : World) (k : string) :
  k <> "user" ->
  localStorage (restore w).2 !! k = localStorage w !! k /\
  (forall email pass,
      localStorage (login email pass w).2 !! k = localStorage w !! k) /\
  (forall name email pass avatar,
      localStorage (signup name email pass avatar w).2 !! k = localStorage w !! k) /\
  localStorage (logout w).2 !! k = localStorage w !! k /\
  (forall updatedUser,
      localStorage (updateCurrentUser updatedUser w).2 !! k = localStorage w !! k).
Proof.
  intros Hk. repeat split.
  - destruct (restore_cases w)
      as [[_ ->]|[(text & v & _ & _ & ->)|(text & e & _ & _ & ->)]]; simpl;
      try done.
    by rewrite lookup_delete_ne.
  - intros email pass. destruct (loginUser email pass) as [v|e] eqn:H.
    + rewrite (login_returns _ _ _ _ H). simpl. by rewrite lookup_insert_ne.
    + by rewrite (login_throws _ _ _ _ H).
  - intros name email pass avatar.
    destruct (createUser {| name := name; email := email; password := pass;
                            role := "user"; avatar := avatar |}) as [v|e] eqn:H.
    + by rewrite (signup_returns _ _ _ _ _ _ H).
    + by rewrite (signup_throws _ _ _ _ _ _ H).
  - rewrite logout_eq. simpl. by rewrite lookup_delete_ne.
  - intros updatedUser. rewrite updateCurrentUser_eq. simpl.
    by rewrite lookup_insert_ne.
Qed.

(** X3. The restore effect never throws, and running it a second time
    changes nothing: the world after two runs is the world after one. *)
Theorem restore_idempotent (w : World) :
  (restore w).1 = Normal () /\
  restore (restore w).2 = (Normal (), (restore w).2).
Proof.
  destruct (restore_cases w)
    as [[Hskip ->]|[(text & v & Hget & Hparse & ->)|(text & e & Hget & Hparse & ->)]];
    simpl; (split; [done|]).
  - by rewrite restore_skips.
  - by rewrite (restore_parses _ text v).
  - rewrite restore_skips; [done|]. simpl. by rewrite lookup_delete_eq.
Qed.

(** X4. When the backend call of [signup] fails with an error, [signup]
    throws that same error, [error] holds its message, and [user] and
    [localStorage] are what they were before the call. *)
Theorem signup_failure (name email pass avatar : string) (e : Error) (w : World) :
  createUser {| name := name; email := email; password := pass;
                role := "user"; avatar := avatar |} = Throw e ->
  let r := signup name email pass avatar w in
  r.1 = Throw e /\
  error r.2 = Some (message e) /\
  user r.2 = user w /\
  localStorage r.2 = localStorage w.
Proof. intros H. simpl. by rewrite (signup_throws _ _ _ _ _ _ H). Qed.

(** X5. A successful [login] replaces whatever an earlier successful
    [login] left: result and world after the second call are those of
    the second call made alone (no merge of records, no stale error, one
    stored entry). *)
Theorem last_login_wins (email1 pass1 email2 pass2 : string)
    (record1 record2 : value) (w : World) :
  loginUser email1 pass1 = Normal record1 ->
  loginUser email2 pass2 = Normal record2 ->
  login email2 pass2 (login email1 pass1 w).2 = login email2 pass2 w.
Proof.
  intros H1 H2.
  rewrite (login_returns _ _ _ _ H1), !(login_returns _ _ _ _ H2). simpl.
  by rewrite insert_insert_eq.
Qed.

(** X6. A failed attempt does not keep an older error, and a successful
    one leaves none: after [login] or [signup], [error] is the message of
    the failure of that very call, or [null] when the call succeeded,
    whatever [error] held before. *)
Theorem error_is_of_last_call (w : World) :
  (forall email pass,
      error (login email pass w).2
      = match loginUser email pass with
        | Normal _ => None
        | Throw e => Some (message e)
        end) /\
  (forall name email pass avatar,
      error (signup name email pass avatar w).2
      = match createUser {| name := name; email := email; password := pass;
                            role := "user"; avatar := avatar |} with
        | Normal _ => None
        | Throw e => Some (message e)
        end).
Proof.
  split.
  - intros email pass. destruct (loginUser email pass) as [v|e] eqn:H.
    + by rewrite (login_returns _ _ _ _ H).
    + by rewrite (login_throws _ _ _ _ H).
  - intros name email pass avatar.
    destruct (createUser _) as [v|e] eqn:H.
    + by rewrite (signup_returns _ _ _ _ _ _ H).
    + by rewrite (signup_throws _ _ _ _ _ _ H).
Qed.
End Generic.

(** *** On the platform of the modelled JSON values *)

Lemma reload_restore `{platform : Platform} (storage : gmap string string) :
  survives_reload (restore (mount storage)).2.
Proof.
  unfold survives_reload.
  destruct (restore_cases (mount storage))
    as [[Hskip Heq]|[(text & v & Hget & Hparse & Heq)|(text & e & Hget & Hparse & Heq)]];
    rewrite Heq; simpl.
  - by rewrite Heq.
  - by rewrite Heq.
  - rewrite restore_skips; [done|]. simpl. by rewrite lookup_delete_eq.
Qed.

Lemma reload_stored (record : json) (storage : gmap string string) :
  JSON.json_wf record ->
  user (restore (mount (platform := json_platform)
                   (<["user" := JSON.stringify record]> storage))).2 = record.
Proof.
  intros Hwf.
  by rewrite (restore_parses (platform := json_platform) (mount _)
                (JSON.stringify record) record
                (lookup_insert_eq _ _ _) (JSON_parse_stringify _ Hwf)).
Qed.

Lemma reload_deleted `{platform : Platform} (storage : gmap string string) :
  user (restore (mount (delete "user" storage))).2 = null.
Proof. rewrite restore_skips; [done|]. simpl. by rewrite lookup_delete_eq. Qed.

(** X7. [updateCurrentUser] with a record ends normally with [user] at
    that record and the stored entry at its JSON text, which decodes to
    the record; a provider mounted afterwards restores it; [loading] and
    [error] are left alone. *)
Theorem updateCurrentUser_persists (record : json) (w : World) :
  JSON.json_wf record ->
  let r := updateCurrentUser record w in
  r.1 = Normal () /\
  user r.2 = record /\
  (exists text,
      localStorage r.2 !! "user" = Some text /\ JSON_parse text = Normal record) /\
  survives_reload r.2 /\
  loading r.2 = loading w /\ error r.2 = error w.
Proof.
  intros Hwf. cbv zeta. rewrite updateCurrentUser_eq. simpl.
  repeat split; try done.
  - exists (JSON.stringify record). split; [apply lookup_insert_eq|].
    by apply JSON_parse_stringify.
  - unfold survives_reload. simpl. by apply reload_stored.
Qed.

Section Reload.
Context {platform : Platform} {auth : AuthService}.

Lemma reload_round_trip (record : value) (storage : gmap string string) :
  round_trips record ->
  user (restore (mount (<["user" := JSON_stringify record]> storage))).2 = record.
Proof.
  intros Hrt.
  by rewrite (restore_parses (mount _) (JSON_stringify record) record
                (lookup_insert_eq _ _ _) Hrt).
Qed.

Lemma run_call_keeps (w : World) (c : Call) :
  backend_round_trips -> call_round_trips c ->
  survives_reload w /\ loading w = false ->
  survives_reload (run_call w c) /\ loading (run_call w c) = false.
Proof.
  intros Hauth Hc [Hw Hl]. unfold survives_reload in *.
  destruct c as [email pass|name email pass avatar| |updatedUser]; simpl.
  - destruct (loginUser email pass) as [record|e] eqn:H.
    + rewrite (login_returns _ _ _ _ H). simpl. split; [|done].
      apply reload_round_trip. by eapply Hauth.
    + by rewrite (login_throws _ _ _ _ H).
  - destruct (createUser {| name := name; email := email; password := pass;
                            role := "user"; avatar := avatar |}) as [v|e] eqn:H.
    + by rewrite (signup_returns _ _ _ _ _ _ H).
    + by rewrite (signup_throws _ _ _ _ _ _ H).
  - split; [|done]. apply reload_deleted.
  - split; [|done]. by apply reload_round_trip.
Qed.

(** X8. On any platform: mount the provider on any storage, let the
    effect run, then make any calls, each settled before the next, with
    a backend and a caller that hand in records the codec reads back from
    its own text: in the state reached, [loading] is false and a provider
    mounted afresh on the storage restores exactly the current [user]. *)
Theorem session_survives_reload (storage : gmap string string)
    (calls : list Call) :
  backend_round_trips ->
  Forall call_round_trips calls ->
  survives_reload (session storage calls) /\
  loading (session storage calls) = false.
Proof.
  intros Hauth Hcalls. unfold session.
  assert (survives_reload (restore (mount storage)).2 /\
          loading (restore (mount storage)).2 = false) as Hstart.
  { split; [apply reload_restore|].
    destruct (restore_cases (mount storage))
      as [[_ ->]|[(? & ? & _ & _ & ->)|(? & ? & _ & _ & ->)]]; done. }
  revert Hstart. generalize (restore (mount storage)).2 as w.
  induction Hcalls as [|c calls Hc _ IH]; intros w Hw; [done|].
  simpl. apply IH. by apply run_call_keeps.
Qed.
End Reload.

(** *** Instances at concrete inputs *)

Lemma other_entries_untouched_witness :
  let w := mount (platform := json_platform)
             {[ "theme" := "dark"; "user" := "{oops" ]} in
  localStorage (restore w).2 !! "theme" = localStorage w !! "theme" /\
  (forall email pass,
      localStorage (login (auth := strict_backend) email pass w).2 !! "theme"
      = localStorage w !! "theme") /\
  (forall name email pass avatar,
      localStorage (signup (auth := strict_backend) name email pass avatar w).2
        !! "theme"
      = localStorage w !! "theme") /\
  localStorage (logout w).2 !! "theme" = localStorage w !! "theme" /\
  (forall updatedUser,
      localStorage (updateCurrentUser updatedUser w).2 !! "theme"
      = localStorage w !! "theme").
Proof.
  apply (other_entries_untouched (auth := strict_backend)
           (mount {[ "theme" := "dark"; "user" := "{oops" ]}) "theme").
  discriminate.
Defined.

Lemma signup_failure_witness :
  let w := mount (platform := json_platform) {[ "user" := "7" ]} in
  let e := new_Error "Email already registered" in
  let r := signup (auth := strict_backend) "Ada" "ada@example.org" "pw" "a.png" w in
  r.1 = Throw e /\ error r.2 = Some (message e) /\
  user r.2 = user w /\ localStorage r.2 = localStorage w.
Proof.
  apply (signup_failure (auth := strict_backend) "Ada" "ada@example.org" "pw" "a.png").
  reflexivity.
Defined.

Lemma last_login_wins_witness :
  let w := mount (platform := json_platform) ∅ in
  login (auth := strict_backend) "grace@example.org" "c0b0l"
    (login (auth := strict_backend) "ada@example.org" "s3cret" w).2
  = login (auth := strict_backend) "grace@example.org" "c0b0l" w.
Proof.
  apply (last_login_wins (auth := strict_backend)
           "ada@example.org" "s3cret" "grace@example.org" "c0b0l"
           sample_user second_user);
    reflexivity.
Defined.

Lemma updateCurrentUser_persists_witness :
  let w := mount (platform := json_platform) ∅ in
  let r := updateCurrentUser second_user w in
  r.1 = Normal () /\
  user r.2 = second_user /\
  (exists text,
      localStorage r.2 !! "user" = Some text /\ JSON_parse text = Normal second_user) /\
  survives_reload r.2 /\
  loading r.2 = loading w /\ error r.2 = error w.
Proof.
  apply (updateCurrentUser_persists second_user).
  simpl. repeat split; reflexivity.
Defined.

Lemma session_survives_reload_witness :
  let calls :=
    [ call_login "ada@example.org" "guess";
      call_login "ada@example.org" "s3cret";
      call_signup "Ada" "ada@example.org" "pw" "a.png";
      call_updateCurrentUser second_user;
      call_logout;
      call_login "grace@example.org" "c0b0l" ] in
  survives_reload (session (auth := strict_backend) {[ "user" := "{oops" ]} calls) /\
  loading (session (auth := strict_backend) {[ "user" := "{oops" ]} calls) = false.
Proof.
  apply (session_survives_reload (auth := strict_backend)).
  - intros email pass record. simpl.
    destruct (_ && _); [|destruct (_ && _)]; intros [= <-]; reflexivity.
  - repeat constructor; reflexivity.
Defined.

End SessionSpec.

(** ** The archive upload client: further properties *)

Module UploadSpec.
Import JS ArchiveService ArchiveServiceSpec StringFacts.


(** X9. [getMediaType] answers "movies" exactly for the types that
    start with [video/], "image" exactly for those that start with
    [image/], and "texts" exactly for all the others: the test for
    [application/pdf] never changes the answer. *)
Theorem getMediaType_exactly (file : File) :
  (getMediaType file = movies <-> exists rest, file_type file = "video/" +:+ rest) /\
  (getMediaType file = image <-> exists rest, file_type file = "image/" +:+ rest) /\
  (getMediaType file = texts <->
   (forall rest, file_type file <> "video/" +:+ rest) /\
   (forall rest, file_type file <> "image/" +:+ rest)).
Proof.
  unfold getMediaType.
  destruct (startsWith (file_type file) "video/") eqn:Hv.
  - apply startsWith_spec in Hv as [rest Hrest]. repeat split; try done.
    + by exists rest.
    + intros [rest' Heq]. rewrite Hrest in Heq. by rewrite !app_String in Heq.
    + intros [Hno _]. by destruct (Hno rest).
  - assert (forall rest, file_type file <> "video/" +:+ rest) as Hnov.
    { intros rest Heq.
      by rewrite (proj2 (startsWith_spec _ "video/") (ex_intro _ rest Heq)) in Hv. }
    destruct (String.eqb_spec (file_type file) "application/pdf") as [Hpdf|_].
    + repeat split; try done.
      * intros [rest Heq]. by destruct (Hnov rest).
      * intros [rest Heq]. rewrite Hpdf in Heq. by rewrite !app_String in Heq.
      * intros rest Heq. rewrite Hpdf in Heq. by rewrite !app_String in Heq.
    + destruct (startsWith (file_type file) "image/") eqn:Hi.
      * apply startsWith_spec in Hi as [rest Hrest]. repeat split; try done.
        -- intros [rest' Heq]. by destruct (Hnov rest').
        -- by exists rest.
        -- intros [_ Hno]. by destruct (Hno rest).
      * repeat split; try done.
        -- intros [rest Heq]. by destruct (Hnov rest).
        -- intros [rest Heq].
           by rewrite (proj2 (startsWith_spec _ "image/") (ex_intro _ rest Heq)) in Hi.
        -- intros rest Heq.
           by rewrite (proj2 (startsWith_spec _ "image/") (ex_intro _ rest Heq)) in Hi.
Qed.

Section Upload.
Variable encodeURIComponent : string -> string.
Variable env : gmap string string.

Lemma uploadFile_sending (file : File) (itemName : string) :
  ACCESS_KEY env <> EmptyString -> SECRET_KEY env <> EmptyString ->
  uploadFile encodeURIComponent env file itemName
  = mkUpload Pending
      [ xhr_open "PUT"
          ("https://s3.us.archive.org/" +:+ itemName +:+ "/"
           +:+ encodeURIComponent (file_name file)) true;
        xhr_setRequestHeader "Authorization"
          ("LOW " +:+ ACCESS_KEY env +:+ ":" +:+ SECRET_KEY env);
        xhr_setRequestHeader "x-amz-auto-make-bucket" "1";
        xhr_setRequestHeader "x-archive-meta-collection" "opensource";
        xhr_setRequestHeader "x-archive-meta-mediatype"
          (MediaType_string (getMediaType file));
        xhr_setRequestHeader "Content-Type" (file_type file);
        xhr_send file ]
      [] true.
Proof.
  intros Ha Hs. unfold uploadFile. simpl.
  destruct (String.eqb_spec (ACCESS_KEY env) EmptyString); [done|].
  by destruct (String.eqb_spec (SECRET_KEY env) EmptyString).
Qed.

Lemma uploadFile_rejecting (file : File) (itemName : string) :
  ACCESS_KEY env = EmptyString \/ SECRET_KEY env = EmptyString ->
  uploadFile encodeURIComponent env file itemName
  = mkUpload (Rejected (new_Error not_configured)) [] [not_configured] false.
Proof.
  intros H. unfold uploadFile. destruct H as [-> | ->]; [done|].
  by rewrite orb_true_r.
Qed.

Lemma configured_or_not :
  (ACCESS_KEY env <> EmptyString /\ SECRET_KEY env <> EmptyString) \/
  (ACCESS_KEY env = EmptyString \/ SECRET_KEY env = EmptyString).
Proof.
  destruct (String.eqb_spec (ACCESS_KEY env) EmptyString); [by right; left|].
  destruct (String.eqb_spec (SECRET_KEY env) EmptyString); [by right; right|].
  by left.
Qed.


Lemma on_event_frame (file : File) (itemName : string) (u : Upload)
    (ev : XhrEvent) :
  let u' := on_event encodeURIComponent file itemName u ev in
  transport u' = transport u /\ console u' = console u /\
  listening u' = listening u.
Proof.
  unfold on_event, settle.
  destruct (listening u) eqn:Hl; [|done].
  destruct ev as [status statusText responseText|];
    [destruct (_ && _)|]; by destruct (promise u).
Qed.

(** X11. Whatever the transport reports after [uploadFile], and however
    often, the client makes no further call on it and writes nothing to
    the console: nothing is retried, and over its whole life an upload
    sends the file at most once. *)
Theorem upload_never_retries (file : File) (itemName : string)
    (events : list XhrEvent) :
  let u0 := uploadFile encodeURIComponent env file itemName in
  let u := fold_left (on_event encodeURIComponent file itemName) events u0 in
  transport u = transport u0 /\
  console u = console u0 /\
  length (List.filter is_send (transport u)) <= 1.
Proof.
  cbv zeta.
  assert (forall u,
             transport (fold_left (on_event encodeURIComponent file itemName) events u)
             = transport u /\
             console (fold_left (on_event encodeURIComponent file itemName) events u)
             = console u) as Hframe.
  { induction events as [|ev events IH]; intros u; [done|]. simpl.
    destruct (IH (on_event encodeURIComponent file itemName u ev)) as [-> ->].
    by destruct (on_event_frame file itemName u ev) as (-> & -> & _). }
  destruct (Hframe (uploadFile encodeURIComponent env file itemName)) as [-> ->].
  repeat split.
  destruct configured_or_not as [[Ha Hs]|Hno].
  - rewrite (uploadFile_sending file itemName Ha Hs). simpl. lia.
  - rewrite (uploadFile_rejecting file itemName Hno). simpl. lia.
Qed.



End Upload.



End UploadSpec.

(** ** The resource client: further properties *)

Module ResourceExtraSpec.
Import JS ResourceService ObjectFacts ResourceServiceSpec.

(** Destructs, one after the other, what the matches in [H] look at. *)
Ltac invert_binds H :=
  unfold append, mbind, Completion_bind in H; simpl in H;
  repeat match type of H with
    | context [match ?x with _ => _ end] =>
        lazymatch x with
        | context [match _ with _ => _ end] => fail
        | _ => destruct x eqn:?; try discriminate H
        end
    end.

(** What a form that was built holds, entry by entry. *)
Lemma create_formData_Normal (resource : json) (formData : FormData) :
  create_formData resource = Normal formData ->
  exists v1 v2 v3 v4 v5 t1 t2 t3 t4 t5,
    Get resource "title" = Normal v1 /\ String_ v1 = Normal t1 /\
    Get resource "Subject_Name" = Normal v2 /\ String_ v2 = Normal t2 /\
    Get resource "video_link" = Normal v3 /\ String_ v3 = Normal t3 /\
    Get resource "pdf_link" = Normal v4 /\ String_ v4 = Normal t4 /\
    Get resource "image_url" = Normal v5 /\ String_ v5 = Normal t5 /\
    formData = [("action", "create"); ("title", t1); ("Subject_Name", t2);
                ("video_link", t3); ("pdf_link", t4); ("image_url", t5)].
Proof.
  unfold create_formData. intros H. invert_binds H. injection H as <-.
  eexists _, _, _, _, _, _, _, _, _, _. repeat split; eassumption.
Qed.

Lemma update_formData_Normal (resource : json) (formData : FormData) :
  update_formData resource = Normal formData ->
  exists v0 v1 v2 v3 v4 v5 t0 t1 t2 t3 t4 t5,
    Get resource "id" = Normal v0 /\ String_ v0 = Normal t0 /\
    Get resource "title" = Normal v1 /\ String_ v1 = Normal t1 /\
    Get resource "Subject_Name" = Normal v2 /\ String_ v2 = Normal t2 /\
    Get resource "video_link" = Normal v3 /\ String_ v3 = Normal t3 /\
    Get resource "pdf_link" = Normal v4 /\ String_ v4 = Normal t4 /\
    Get resource "image_url" = Normal v5 /\ String_ v5 = Normal t5 /\
    formData = [("action", "update"); ("id", t0); ("title", t1);
                ("Subject_Name", t2); ("video_link", t3); ("pdf_link", t4);
                ("image_url", t5)].
Proof.
  unfold update_formData. intros H. invert_binds H. injection H as <-.
  eexists _, _, _, _, _, _, _, _, _, _, _, _. repeat split; eassumption.
Qed.

(** X14. A response that is not [ok] makes [getResources] throw its
    generic error without reading the body, but leaves the write
    operations unmoved: given that same response to their request,
    [createResource], [updateResource] and [deleteResource] settle
    normally, having made exactly one POST request in [no-cors] mode to
    the endpoint. *)
Theorem failed_response_list_vs_writes (fetch : Request -> Completion Response)
    (response : Response) :
  ok response = false ->
  (forall request, fetch request = Normal response) ->
  getResources (Normal response) = Throw (new_Error "Failed to fetch resources") /\
  (forall resource formData,
      create_formData resource = Normal formData ->
      createResource fetch resource
      = ([{| url := API_URL; method := "POST"; mode := "no-cors";
             body := formData |}], Normal ())) /\
  (forall resource formData,
      update_formData resource = Normal formData ->
      updateResource fetch resource
      = ([{| url := API_URL; method := "POST"; mode := "no-cors";
             body := formData |}], Normal ())) /\
  (forall id formData,
      delete_formData id = Normal formData ->
      deleteResource fetch id
      = ([{| url := API_URL; method := "POST"; mode := "no-cors";
             body := formData |}], Normal ())).
Proof.
  intros Hok Hfetch. split; [|repeat split].
  - unfold getResources, mbind, Completion_bind. by rewrite Hok.
  - intros resource formData H. unfold createResource, post. rewrite H.
    by rewrite Hfetch.
  - intros resource formData H. unfold updateResource, post. rewrite H.
    by rewrite Hfetch.
  - intros id formData H. unfold deleteResource, post. rewrite H.
    by rewrite Hfetch.
Qed.

Lemma Get_obj (props : list (string * json)) (name : string) :
  name <> "length" -> Get (JObj props) name = Normal (obj_get name props).
Proof.
  intros Hne. unfold Get. simpl. destruct (obj_get name props); [done|].
  by destruct (String.eqb_spec name "length").
Qed.

Lemma String_flat (v : option json) :
  flat v -> exists text, String_ v = Normal text.
Proof. destruct v as [[ |[|]| | | | ]|]; simpl; by eauto. Qed.

(** X15. For a resource that is an object whose [id] and five fields
    are each absent or a primitive, [createResource] and
    [updateResource] never throw while building the form: each makes
    exactly one request, a POST in [no-cors] mode to the endpoint, and
    then settles as [fetch] does, normally whatever the response, or by
    the error [fetch] rejected with. *)
Theorem writes_accept_flat_records (fetch : Request -> Completion Response)
    (props : list (string * json)) :
  (forall name,
      In name ["id"; "title"; "Subject_Name"; "video_link"; "pdf_link";
               "image_url"] ->
      flat (obj_get name props)) ->
  exists created updated,
    create_formData (JObj props) = Normal created /\
    update_formData (JObj props) = Normal updated /\
    let request form :=
      {| url := API_URL; method := "POST"; mode := "no-cors"; body := form |} in
    createResource fetch (JObj props)
    = ([request created], _ ← fetch (request created); Normal ()) /\
    updateResource fetch (JObj props)
    = ([request updated], _ ← fetch (request updated); Normal ()).
Proof.
  intros Hflat.
  destruct (String_flat _ (Hflat "id" ltac:(simpl; tauto))) as [t0 H0].
  destruct (String_flat _ (Hflat "title" ltac:(simpl; tauto))) as [t1 H1].
  destruct (String_flat _ (Hflat "Subject_Name" ltac:(simpl; tauto))) as [t2 H2].
  destruct (String_flat _ (Hflat "video_link" ltac:(simpl; tauto))) as [t3 H3].
  destruct (String_flat _ (Hflat "pdf_link" ltac:(simpl; tauto))) as [t4 H4].
  destruct (String_flat _ (Hflat "image_url" ltac:(simpl; tauto))) as [t5 H5].
  assert (create_formData (JObj props)
          = Normal [("action", "create"); ("title", t1); ("Subject_Name", t2);
                    ("video_link", t3); ("pdf_link", t4); ("image_url", t5)]) as Hc.
  { unfold create_formData, append, mbind, Completion_bind.
    rewrite !Get_obj by done. simpl. by rewrite H1, H2, H3, H4, H5. }
  assert (update_formData (JObj props)
          = Normal [("action", "update"); ("id", t0); ("title", t1);
                    ("Subject_Name", t2); ("video_link", t3); ("pdf_link", t4);
                    ("image_url", t5)]) as Hu.
  { unfold update_formData, append, mbind, Completion_bind.
    rewrite !Get_obj by done. simpl. by rewrite H0, H1, H2, H3, H4, H5. }
  eexists _, _. split; [exact Hc|]. split; [exact Hu|].
  unfold createResource, updateResource, post. by rewrite Hc, Hu.
Qed.

(** X16. For a resource whose numbers are safe integers: the form
    [createResource] sends holds, in this order, [action]
    (always "create"), [title], [Subject_Name], [video_link], [pdf_link]
    and [image_url], each field as the string [String(...)] gives for the
    resource's property; it never holds an [id], whatever the resource
    has; and a property the resource lacks is sent as the text
    "undefined". *)
Theorem create_formData_entries (resource : json) (formData : FormData) :
  JSON.json_wf resource ->
  create_formData resource = Normal formData ->
  map fst formData
  = ["action"; "title"; "Subject_Name"; "video_link"; "pdf_link"; "image_url"] /\
  obj_get "action" formData = Some "create" /\
  obj_get "id" formData = None /\
  (forall name,
      In name ["title"; "Subject_Name"; "video_link"; "pdf_link"; "image_url"] ->
      exists v text,
        Get resource name = Normal v /\ String_ v = Normal text /\
        obj_get name formData = Some text) /\
  (forall name,
      In name ["title"; "Subject_Name"; "video_link"; "pdf_link"; "image_url"] ->
      Get resource name = Normal None ->
      obj_get name formData = Some "undefined").
Proof.
  intros _ H. apply create_formData_Normal in H
    as (v1 & v2 & v3 & v4 & v5 & t1 & t2 & t3 & t4 & t5 &
        G1 & S1 & G2 & S2 & G3 & S3 & G4 & S4 & G5 & S5 & ->).
  assert (forall name,
             In name ["title"; "Subject_Name"; "video_link"; "pdf_link"; "image_url"] ->
             exists v text,
               Get resource name = Normal v /\ String_ v = Normal text /\
               obj_get name
                 [("action", "create"); ("title", t1); ("Subject_Name", t2);
                  ("video_link", t3); ("pdf_link", t4); ("image_url", t5)]
               = Some text) as Hfields.
  { intros name [<-|[<-|[<-|[<-|[<-|[]]]]]]; eexists _, _; by repeat split. }
  repeat split; try done.
  intros name Hin Hget. destruct (Hfields name Hin) as (v & text & Hv & Ht & ->).
  rewrite Hget in Hv. injection Hv as <-. simpl in Ht. by injection Ht as <-.
Qed.

(** X17. For a resource whose numbers are safe integers: the form
    [updateResource] sends holds [action] (always
    "update"), then [id], then the five fields of [createResource], each
    as the string [String(...)] gives for the resource's property. *)
Theorem update_formData_entries (resource : json) (formData : FormData) :
  JSON.json_wf resource ->
  update_formData resource = Normal formData ->
  map fst formData
  = ["action"; "id"; "title"; "Subject_Name"; "video_link"; "pdf_link";
     "image_url"] /\
  obj_get "action" formData = Some "update" /\
  (forall name,
      In name ["id"; "title"; "Subject_Name"; "video_link"; "pdf_link";
               "image_url"] ->
      exists v text,
        Get resource name = Normal v /\ String_ v = Normal text /\
        obj_get name formData = Some text).
Proof.
  intros _ H. apply update_formData_Normal in H
    as (v0 & v1 & v2 & v3 & v4 & v5 & t0 & t1 & t2 & t3 & t4 & t5 &
        G0 & S0 & G1 & S1 & G2 & S2 & G3 & S3 & G4 & S4 & G5 & S5 & ->).
  repeat split; try done.
  intros name [<-|[<-|[<-|[<-|[<-|[<-|[]]]]]]]; eexists _, _; by repeat split.
Qed.

(** *** Listing again, and writing what was listed *)

Lemma obj_replace_same {A} (k : string) (v : A) (l : list (string * A)) :
  obj_get k l = Some v -> obj_replace k v l = l.
Proof.
  induction l as [|[k' v'] l IH]; simpl; [done|].
  destruct (String.eqb_spec k k') as [->|Hne].
  - by intros [= ->].
  - intros H. by rewrite IH.
Qed.

Lemma obj_set_same {A} (k : string) (v : A) (l : list (string * A)) :
  obj_get k l = Some v -> obj_set k v l = l.
Proof.
  intros H. unfold obj_set, obj_has. rewrite H. by apply obj_replace_same.
Qed.

Lemma map_throwing_fixed {A} (f : A -> Completion A) (xs : list A) :
  Forall (fun x => f x = Normal x) xs -> map_throwing f xs = Normal xs.
Proof.
  induction 1 as [|x xs Hx _ IH]; [done|]. simpl.
  unfold mbind, Completion_bind. by rewrite Hx, IH.
Qed.

Lemma map_throwing_throws {A B} (f : A -> Completion B) (xs : list A) (x : A) :
  In x xs -> is_Throw (f x) -> is_Throw (map_throwing f xs).
Proof.
  intros Hin Hx. induction xs as [|y xs IH]; [done|]. simpl.
  unfold mbind, Completion_bind. destruct (f y) as [z|e] eqn:Hy; [|done].
  destruct Hin as [->|Hin]; [by rewrite Hy in Hx|].
  by destruct (map_throwing f xs); [apply IH|].
Qed.

(** A record with a string [id] is rebuilt as it is. *)
Lemma normalised_fixed (fields : list (string * json)) (text : string) :
  obj_get "id" fields = Some (JStr text) ->
  (id ← Get (JObj fields) "id";
   text' ← String_ id;
   Normal (JObj (obj_set "id" (JStr text') (own_props (JObj fields)))))
  = Normal (JObj fields).
Proof.
  intros Hid. rewrite Get_obj by done. unfold mbind, Completion_bind.
  rewrite Hid. simpl. by rewrite (obj_set_same _ _ _ Hid).
Qed.

(** X18. Listing is idempotent: the list [getResources] returned, sent
    back as the [data] of a response, is returned unchanged. *)
Theorem getResources_idempotent (fetched : Completion Response)
    (out : list json) :
  getResources fetched = Normal out ->
  getResources
    (Normal {| ok := true; json_body := Normal (JObj [("data", JArr out)]) |})
  = Normal out.
Proof.
  intros H. apply getResources_Normal in H
    as (response & data & data_data & records & _ & _ & _ & _ & _ & Hall).
  unfold getResources, mbind, Completion_bind. simpl.
  apply map_throwing_fixed.
  induction Hall as [|resource returned records out (id & text & _ & _ & ->) _ IH];
    constructor; [|done].
  apply (normalised_fixed _ text). by rewrite obj_get_set_eq.
Qed.

(** X19. The identifier survives the way from the list to a write.
    For a response body whose numbers are safe integers: for every
    record [getResources] returned, [deleteResource] called with
    the record's [id] sends exactly [action] "delete" and an [id] that
    is the text [String(...)] gives for the identifier received from the
    backend, and every form [updateResource] builds from the record
    carries that same [id]. *)
Theorem listed_id_reaches_writes (fetched : Completion Response)
    (out : list json) :
  body_wf fetched ->
  getResources fetched = Normal out ->
  exists response data data_data records,
    fetched = Normal response /\
    json_body response = Normal data /\
    Get data "data" = Normal data_data /\
    (if truthy data_data then data_data else Some (JArr [])) = Some (JArr records) /\
    Forall2
      (fun resource returned =>
         exists id text,
           Get resource "id" = Normal id /\
           String_ id = Normal text /\
           (exists listed,
               Get returned "id" = Normal listed /\
               delete_formData listed
               = Normal [("action", "delete"); ("id", text)]) /\
           (forall formData,
               update_formData returned = Normal formData ->
               obj_get "id" formData = Some text))
      records out.
Proof.
  intros _ H. apply getResources_Normal in H
    as (response & data & data_data & records & -> & _ & Hbody & Hdata & Hres & Hall).
  exists response, data, data_data, records. repeat split; try done.
  eapply Forall2_impl; [exact Hall|]. intros resource returned.
  intros (id & text & Hid & Htext & ->). exists id, text.
  assert (Get (JObj (obj_set "id" (JStr text) (own_props resource))) "id"
          = Normal (Some (JStr text))) as Hlisted.
  { rewrite Get_obj by done. by rewrite obj_get_set_eq. }
  repeat split; try done.
  - by exists (Some (JStr text)).
  - intros formData Hform. apply update_formData_Normal in Hform
      as (v0 & v1 & v2 & v3 & v4 & v5 & t0 & t1 & t2 & t3 & t4 & t5 &
          G0 & S0 & _ & _ & _ & _ & _ & _ & _ & _ & _ & _ & ->).
    rewrite Hlisted in G0. injection G0 as <-. simpl in S0.
    injection S0 as <-. reflexivity.
Qed.

(** X20. What [data.data || []] does with a body: when [data.data] is
    absent, [null], [false], 0 or the empty string, [getResources]
    returns the empty list; when it is anything else that is not an array
    (a number, a text, [true], an object), [getResources] throws. *)
Theorem getResources_data_shapes (response : Response) (data : json)
    (data_data : option json) :
  ok response = true ->
  json_body response = Normal data ->
  Get data "data" = Normal data_data ->
  (truthy data_data = false -> getResources (Normal response) = Normal []) /\
  (truthy data_data = true ->
   (forall records, data_data <> Some (JArr records)) ->
   getResources (Normal response) = Throw TypeError).
Proof.
  intros Hok Hbody Hdata.
  unfold getResources, mbind, Completion_bind. rewrite Hok, Hbody, Hdata. simpl.
  split.
  - by intros ->.
  - intros -> Hnot. destruct data_data as [[ | | | | records | ]|]; try done.
    by destruct (Hnot records).
Qed.

(** X21. One record that cannot be rebuilt fails the whole call: when any
    element of the received array is [null], or has an [id] that cannot
    be turned into a string, [getResources] throws and returns no partial
    list. *)
Theorem getResources_all_or_nothing (response : Response) (data : json)
    (records : list json) (resource : json) :
  ok response = true ->
  json_body response = Normal data ->
  Get data "data" = Normal (Some (JArr records)) ->
  In resource records ->
  resource = JNull \/ is_Throw (id ← Get resource "id"; String_ id) ->
  is_Throw (getResources (Normal response)).
Proof.
  intros Hok Hbody Hdata Hin Hbad.
  unfold getResources. unfold mbind at 1 2 3, Completion_bind at 1 2 3.
  rewrite Hok, Hbody, Hdata. simpl.
  apply (map_throwing_throws _ _ resource Hin).
  destruct Hbad as [->|Hbad]; [done|].
  unfold mbind, Completion_bind in *.
  destruct (Get resource "id") as [id|e]; [|done].
  by destruct (String_ id).
Qed.

(** *** Instances at concrete inputs *)

Lemma failed_response_list_vs_writes_witness :
  let fetch := fun _ : Request => Normal failed_response in
  getResources (Normal failed_response)
  = Throw (new_Error "Failed to fetch resources") /\
  (forall resource formData,
      create_formData resource = Normal formData ->
      createResource fetch resource
      = ([{| url := API_URL; method := "POST"; mode := "no-cors";
             body := formData |}], Normal ())) /\
  (forall resource formData,
      update_formData resource = Normal formData ->
      updateResource fetch resource
      = ([{| url := API_URL; method := "POST"; mode := "no-cors";
             body := formData |}], Normal ())) /\
  (forall id formData,
      delete_formData id = Normal formData ->
      deleteResource fetch id
      = ([{| url := API_URL; method := "POST"; mode := "no-cors";
             body := formData |}], Normal ())).
Proof.
  apply (failed_response_list_vs_writes (fun _ => Normal failed_response)
           failed_response).
  - reflexivity.
  - intros request. reflexivity.
Defined.

Lemma writes_accept_flat_records_witness :
  let fetch := fun _ : Request => Throw (new_Error "Failed to fetch") in
  exists created updated,
    create_formData (JObj sample_resource) = Normal created /\
    update_formData (JObj sample_resource) = Normal updated /\
    let request form :=
      {| url := API_URL; method := "POST"; mode := "no-cors"; body := form |} in
    createResource fetch (JObj sample_resource)
    = ([request created], _ ← fetch (request created); Normal ()) /\
    updateResource fetch (JObj sample_resource)
    = ([request updated], _ ← fetch (request updated); Normal ()).
Proof.
  apply (writes_accept_flat_records
           (fun _ => Throw (new_Error "Failed to fetch")) sample_resource).
  intros name [<-|[<-|[<-|[<-|[<-|[<-|[]]]]]]]; exact I.
Defined.

Lemma create_formData_entries_witness :
  let formData : FormData :=
    [("action", "create"); ("title", "Optics"); ("Subject_Name", "Physics");
     ("video_link", "null"); ("pdf_link", "o.pdf"); ("image_url", "undefined")] in
  create_formData (JObj sample_resource) = Normal formData /\
  obj_get "id" formData = None /\
  obj_get "image_url" formData = Some "undefined".
Proof.
  split; [reflexivity|].
  assert (JSON.json_wf (JObj sample_resource)) as Hwf
    by (simpl; repeat split; (reflexivity || lia)).
  pose proof (create_formData_entries (JObj sample_resource)
                [("action", "create"); ("title", "Optics"); ("Subject_Name", "Physics");
                 ("video_link", "null"); ("pdf_link", "o.pdf");
                 ("image_url", "undefined")] Hwf eq_refl)
    as (_ & _ & Hid & _ & Hmissing).
  split; [exact Hid|].
  apply Hmissing; [simpl; tauto | reflexivity].
Defined.

Lemma update_formData_entries_witness :
  let formData : FormData :=
    [("action", "update"); ("id", "12"); ("title", "Optics");
     ("Subject_Name", "Physics"); ("video_link", "null"); ("pdf_link", "o.pdf");
     ("image_url", "undefined")] in
  map fst formData
  = ["action"; "id"; "title"; "Subject_Name"; "video_link"; "pdf_link";
     "image_url"] /\
  obj_get "action" formData = Some "update" /\
  (forall name,
      In name ["id"; "title"; "Subject_Name"; "video_link"; "pdf_link";
               "image_url"] ->
      exists v text,
        Get (JObj sample_resource) name = Normal v /\ String_ v = Normal text /\
        obj_get name formData = Some text).
Proof.
  apply (update_formData_entries (JObj sample_resource)).
  - simpl. repeat split; (reflexivity || lia).
  - reflexivity.
Defined.

Lemma getResources_idempotent_witness :
  getResources
    (Normal {| ok := true;
               json_body := Normal (JObj [("data", JArr sample_listed)]) |})
  = Normal sample_listed.
Proof.
  apply (getResources_idempotent (Normal sample_response) sample_listed).
  reflexivity.
Defined.

Lemma listed_id_reaches_writes_witness :
  exists response data data_data records,
    Normal sample_response = Normal response /\
    json_body response = Normal data /\
    Get data "data" = Normal data_data /\
    (if truthy data_data then data_data else Some (JArr [])) = Some (JArr records) /\
    Forall2
      (fun resource returned =>
         exists id text,
           Get resource "id" = Normal id /\
           String_ id = Normal text /\
           (exists listed,
               Get returned "id" = Normal listed /\
               delete_formData listed
               = Normal [("action", "delete"); ("id", text)]) /\
           (forall formData,
               update_formData returned = Normal formData ->
               obj_get "id" formData = Some text))
      records sample_listed.
Proof.
  apply (listed_id_reaches_writes (Normal sample_response) sample_listed).
  - simpl. repeat split; (reflexivity || lia).
  - reflexivity.
Defined.

Lemma getResources_data_shapes_witness :
  let body := JObj [("status", JStr "ok"); ("data", JStr "none")] in
  let response := {| ok := true; json_body := Normal body |} in
  (truthy (Some (JStr "none")) = false -> getResources (Normal response) = Normal []) /\
  (truthy (Some (JStr "none")) = true ->
   (forall records, Some (JStr "none") <> Some (JArr records)) ->
   getResources (Normal response) = Throw TypeError).
Proof.
  apply (getResources_data_shapes
           {| ok := true;
              json_body := Normal (JObj [("status", JStr "ok"); ("data", JStr "none")]) |}
           (JObj [("status", JStr "ok"); ("data", JStr "none")])
           (Some (JStr "none")));
    reflexivity.
Defined.

Lemma getResources_all_or_nothing_witness :
  is_Throw
    (getResources
       (Normal {| ok := true;
                  json_body :=
                    Normal (JObj [("data", JArr (sample_records ++ [JNull]))]) |})).
Proof.
  apply (getResources_all_or_nothing
           {| ok := true;
              json_body := Normal (JObj [("data", JArr (sample_records ++ [JNull]))]) |}
           (JObj [("data", JArr (sample_records ++ [JNull]))])
           (sample_records ++ [JNull]) JNull).
  - reflexivity.
  - reflexivity.
  - reflexivity.
  - simpl. tauto.
  - left. reflexivity.
Defined.

End ResourceExtraSpec.
